(** * Toast overlay manager thread (seedsigner/gui/toast.py)

    A shallow embedding of [BaseToastOverlayManagerThread] and of its two
    subclasses, together with the properties of the toast life cycle and of
    the renderer-lock protocol.

    Conventions of the embedding.
    - Time is counted in milliseconds ([Z]); [time.sleep(0.1)] is a sleep of
      100 and [activation_delay], [duration] (seconds) are scaled by 1000.
    - The thread runs against a world that holds the state it shares with
      the other threads (the renderer lock, [keep_running], the toggle flag,
      the buttons, the SD card, the screen), a script of what the other
      threads do and when, and an oracle telling which collaborator call
      raises.  What the other threads do becomes visible to the toast thread
      at its suspension points: [time.sleep] and a blocking [acquire].
    - The run leaves a log; every entry carries its time and the line of
      toast.py that produced it.
    - Every call of a collaborator is numbered; the oracle [faults] decides
      by this number whether the call raises.
    - [print] statements are diagnostics and are left out; the clock read
      inside the [print] of the monitoring loop is kept.
    - toast.py refers to [time] and to [FontAwesomeIconConstants] without
      importing them; both are taken as provided. *)

From Stdlib Require Import ZArith List Bool String Lia.
Import ListNotations.
Open Scope Z_scope.

#[local] Arguments Z.mul : simpl never.
#[local] Arguments Z.add : simpl never.
#[local] Arguments Z.sub : simpl never.
#[local] Arguments Z.gtb : simpl never.
#[local] Arguments Z.leb : simpl never.
#[local] Arguments Z.max : simpl never.

(** ** Collaborators *)

(** What is on the display: a screen drawn by somebody else, or the toast
    painted over what was there. *)
Inductive frame :=
| Screen (id : nat)
| ToastOver (under : frame).

(** [threading.Lock] has no owner; the holder is kept as ghost information
    so that "holding the lock" can be stated. *)
Inductive holder := Free | Me | Other.

Definition is_locked (h : holder) : bool :=
  match h with Free => false | _ => true end.

(** What the other threads do.  They follow the convention of the class
    docstring: they release the lock, and draw, only while they hold it.
    [OtherAcquire] stands for another thread getting the lock: it has an
    effect on a free lock only, and a thread that asks for a lock that is
    taken and waits for it is scripted at the time at which it gets it. *)
Inductive env_action :=
| RequestStop                (* keep_running = False *)
| RequestYield               (* toggle_renderer_lock() *)
| PressInput
| ReleaseInput
| SetInserted (b : bool)     (* SD card inserted or removed *)
| OtherAcquire
| OtherRelease
| OtherDraw (f : frame).

(** The collaborator calls made by [run]. *)
Inductive op :=
| OpTime | OpSleep | OpAcquire | OpRelease | OpLocked
| OpHasAnyInput | OpIsInserted | OpCanvasCopy | OpRender | OpShowImage.

Inductive event :=
| EvTime (t : Z)
| EvSleep (ms : Z)
| EvAcquire
| EvRelease (before : holder)
| EvLocked (b : bool)
| EvKeepRunning (b : bool)
| EvShouldKeepRunning (b : bool)
| EvHasAnyInput (b : bool)
| EvToggle (b : bool)
| EvClearToggle
| EvCapture (f : frame) (h : holder)
| EvRender (h : holder)
| EvHasRendered
| EvShowImage (f : option frame) (h : holder)
| EvFault (o : op)
| EvEnv (a : env_action).

Inductive exn :=
| Fault (o : op)
| UnboundLocalError
| ConfigError (msg : string).

(** An entry of the log: when, at which line of toast.py (0 for what the
    other threads do), what. *)
Record entry := mkEntry {
  at_time : Z;
  at_line : nat;
  what : event
}.

(** ** The world and the thread's own variables *)

Record State := mkState {
  now : Z;
  lock : holder;
  keep_running : bool;
  toggle_flag : bool;                   (* self._toggle_renderer_lock *)
  input : bool;                         (* hw_inputs.has_any_input() *)
  inserted : bool;                      (* MicroSD.is_inserted() *)
  screen : frame;
  script : list (Z * env_action);
  calls : nat;
  faults : nat -> bool;
  log : list entry;
  start : option Z;                     (* local of run; None: unbound *)
  has_rendered : option bool;           (* local of run; None: unbound *)
  previous_screen_state : option frame  (* None: Python's None *)
}.

Definition set_now v s := mkState v (lock s) (keep_running s) (toggle_flag s) (input s) (inserted s) (screen s) (script s) (calls s) (faults s) (log s) (start s) (has_rendered s) (previous_screen_state s).
Definition set_lock v s := mkState (now s) v (keep_running s) (toggle_flag s) (input s) (inserted s) (screen s) (script s) (calls s) (faults s) (log s) (start s) (has_rendered s) (previous_screen_state s).
Definition set_keep_running v s := mkState (now s) (lock s) v (toggle_flag s) (input s) (inserted s) (screen s) (script s) (calls s) (faults s) (log s) (start s) (has_rendered s) (previous_screen_state s).
Definition set_toggle_flag v s := mkState (now s) (lock s) (keep_running s) v (input s) (inserted s) (screen s) (script s) (calls s) (faults s) (log s) (start s) (has_rendered s) (previous_screen_state s).
Definition set_input v s := mkState (now s) (lock s) (keep_running s) (toggle_flag s) v (inserted s) (screen s) (script s) (calls s) (faults s) (log s) (start s) (has_rendered s) (previous_screen_state s).
Definition set_inserted v s := mkState (now s) (lock s) (keep_running s) (toggle_flag s) (input s) v (screen s) (script s) (calls s) (faults s) (log s) (start s) (has_rendered s) (previous_screen_state s).
Definition set_screen v s := mkState (now s) (lock s) (keep_running s) (toggle_flag s) (input s) (inserted s) v (script s) (calls s) (faults s) (log s) (start s) (has_rendered s) (previous_screen_state s).
Definition set_script v s := mkState (now s) (lock s) (keep_running s) (toggle_flag s) (input s) (inserted s) (screen s) v (calls s) (faults s) (log s) (start s) (has_rendered s) (previous_screen_state s).
Definition set_calls v s := mkState (now s) (lock s) (keep_running s) (toggle_flag s) (input s) (inserted s) (screen s) (script s) v (faults s) (log s) (start s) (has_rendered s) (previous_screen_state s).
Definition set_log v s := mkState (now s) (lock s) (keep_running s) (toggle_flag s) (input s) (inserted s) (screen s) (script s) (calls s) (faults s) v (start s) (has_rendered s) (previous_screen_state s).
Definition set_start v s := mkState (now s) (lock s) (keep_running s) (toggle_flag s) (input s) (inserted s) (screen s) (script s) (calls s) (faults s) (log s) v (has_rendered s) (previous_screen_state s).
Definition set_has_rendered v s := mkState (now s) (lock s) (keep_running s) (toggle_flag s) (input s) (inserted s) (screen s) (script s) (calls s) (faults s) (log s) (start s) v (previous_screen_state s).
Definition set_previous_screen_state v s := mkState (now s) (lock s) (keep_running s) (toggle_flag s) (input s) (inserted s) (screen s) (script s) (calls s) (faults s) (log s) (start s) (has_rendered s) v.

Definition emit_at (t : Z) (line : nat) (e : event) (s : State) : State :=
  set_log (log s ++ [mkEntry t line e]) s.

Definition emit (line : nat) (e : event) (s : State) : State :=
  emit_at (now s) line e s.

(** ** The other threads *)

(** [toggle_renderer_lock], called by the controller of the application. *)
Definition toggle_renderer_lock (s : State) : State :=
  set_toggle_flag true s.

Definition apply_action (t : Z) (a : env_action) (s : State) : State :=
  match a with
  | RequestStop => emit_at t 0 (EvEnv a) (set_keep_running false s)
  | RequestYield => emit_at t 0 (EvEnv a) (toggle_renderer_lock s)
  | PressInput => emit_at t 0 (EvEnv a) (set_input true s)
  | ReleaseInput => emit_at t 0 (EvEnv a) (set_input false s)
  | SetInserted b => emit_at t 0 (EvEnv a) (set_inserted b s)
  | OtherAcquire =>
      match lock s with
      | Free => emit_at t 0 (EvEnv a) (set_lock Other s)
      | _ => s
      end
  | OtherRelease =>
      match lock s with
      | Other => emit_at t 0 (EvEnv a) (set_lock Free s)
      | _ => s
      end
  | OtherDraw f =>
      match lock s with
      | Other => emit_at t 0 (EvEnv a) (set_screen f s)
      | _ => s
      end
  end.

(** The head of the script is delivered as long as it is due at [t]. *)
Fixpoint deliver (t : Z) (pend : list (Z * env_action)) (s : State) : State :=
  match pend with
  | [] => set_script [] s
  | (ta, a) :: rest =>
      if ta <=? t then deliver t rest (apply_action ta a s)
      else set_script pend s
  end.

Definition advance (t : Z) (s : State) : State :=
  set_now t (deliver t (script s) s).

(** A blocking acquire: the thread sleeps until the script frees the lock.
    [None]: the script ends with the lock still taken. *)
Fixpoint acquire_wait (pend : list (Z * env_action)) (s : State) : option State :=
  match lock s with
  | Free => Some (set_script pend (set_lock Me s))
  | _ =>
      match pend with
      | [] => None
      | (ta, a) :: rest =>
          acquire_wait rest (apply_action ta a (set_now (Z.max (now s) ta) s))
      end
  end.

(** ** The monad of the thread *)

Inductive outcome (A : Type) :=
| Ret (a : A) (s : State)
| Raise (e : exn) (s : State)
| Blocked (s : State)      (* waits for the lock for ever *)
| OutOfFuel (s : State).   (* still looping when the fuel ran out *)

Arguments Ret {A} a s.
Arguments Raise {A} e s.
Arguments Blocked {A} s.
Arguments OutOfFuel {A} s.

Definition M (A : Type) := State -> outcome A.

Definition ret {A} (a : A) : M A := fun s => Ret a s.

Definition bind {A B} (m : M A) (k : A -> M B) : M B := fun s =>
  match m s with
  | Ret a s' => k a s'
  | Raise e s' => Raise e s'
  | Blocked s' => Blocked s'
  | OutOfFuel s' => OutOfFuel s'
  end.

Notation "x <- m ;; k" := (bind m (fun x => k))
  (at level 61, m at next level, right associativity).
Notation "m ;;; k" := (bind m (fun _ => k))
  (at level 61, right associativity).

Definition out_of_fuel {A} : M A := fun s => OutOfFuel s.
Definition get {A} (f : State -> A) : M A := fun s => Ret (f s) s.
Definition modify (f : State -> State) : M unit := fun s => Ret tt (f s).

(** [try: body finally: fin].  An exception of [fin] replaces the pending
    one; a body that never returns never reaches [fin]. *)
Definition try_finally {A} (body : M A) (fin : M unit) : M A := fun s =>
  match body s with
  | Ret a s1 =>
      match fin s1 with
      | Ret _ s2 => Ret a s2
      | Raise e s2 => Raise e s2
      | Blocked s2 => Blocked s2
      | OutOfFuel s2 => OutOfFuel s2
      end
  | Raise e s1 =>
      match fin s1 with
      | Ret _ s2 => Raise e s2
      | Raise e' s2 => Raise e' s2
      | Blocked s2 => Blocked s2
      | OutOfFuel s2 => OutOfFuel s2
      end
  | Blocked s1 => Blocked s1
  | OutOfFuel s1 => OutOfFuel s1
  end.

(** A collaborator call made at [line]: it takes the next call number and
    raises when the oracle says so. *)
Definition call {A} (line : nat) (o : op) (body : M A) : M A := fun s =>
  let n := calls s in
  let s1 := set_calls (S n) s in
  if faults s n then Raise (Fault o) (emit line (EvFault o) s1) else body s1.

Definition final {A} (r : outcome A) : State :=
  match r with
  | Ret _ s | Raise _ s | Blocked s | OutOfFuel s => s
  end.

(** ** Collaborator calls *)

Definition time_time (line : nat) : M Z :=
  call line OpTime (fun s => Ret (now s) (emit line (EvTime (now s)) s)).

Definition time_sleep (line : nat) (ms : Z) : M unit :=
  call line OpSleep (fun s =>
    Ret tt (advance (now s + ms) (emit line (EvSleep ms) s))).

(** Modelled from the spec: the DisplayLock ([Renderer.lock] is created
    outside toast.py).  [acquire] blocks until held, [release] returns
    immediately and is safe to call when not held, [locked] is the
    non-blocking query. *)
Definition lock_acquire (line : nat) : M unit :=
  call line OpAcquire (fun s =>
    match acquire_wait (script s) s with
    | Some s' => Ret tt (emit line EvAcquire s')
    | None => Blocked (set_script [] s)
    end).

Definition lock_release (line : nat) : M unit :=
  call line OpRelease (fun s =>
    Ret tt (set_lock Free (emit line (EvRelease (lock s)) s))).

Definition lock_locked (line : nat) : M bool :=
  call line OpLocked (fun s =>
    Ret (is_locked (lock s)) (emit line (EvLocked (is_locked (lock s))) s)).

Definition has_any_input (line : nat) : M bool :=
  call line OpHasAnyInput (fun s =>
    Ret (input s) (emit line (EvHasAnyInput (input s)) s)).

Definition microsd_is_inserted (line : nat) : M bool :=
  call line OpIsInserted (fun s => Ret (inserted s) s).

(** Modelled from the spec: capture of the current frame, paint of the
    toast and redraw of a frame ([Renderer] is outside toast.py). *)
Definition canvas_copy (line : nat) : M frame :=
  call line OpCanvasCopy (fun s =>
    Ret (screen s) (emit line (EvCapture (screen s) (lock s)) s)).

Definition toast_render (line : nat) : M unit :=
  call line OpRender (fun s =>
    Ret tt (set_screen (ToastOver (screen s)) (emit line (EvRender (lock s)) s))).

Definition show_image (line : nat) (f : option frame) : M unit :=
  call line OpShowImage (fun s =>
    Ret tt (match f with
            | Some fr => set_screen fr (emit line (EvShowImage f (lock s)) s)
            | None => emit line (EvShowImage f (lock s)) s
            end)).

(** ** The toast and its manager thread *)

(** The payload of [ToastOverlay].  The geometry computed by
    [__post_init__] and the drawing done by [render] belong to the
    renderer and are not part of the protocol. *)
Record ToastOverlay := mkToast {
  icon_name : option string;
  color : string;
  label_text : option string;
  height : Z;
  font_size : Z;
  outline_thickness : Z
}.

Inductive cls :=
| ClsBase                 (* BaseToastOverlayManagerThread *)
| ClsRemoveSDCard         (* RemoveSDCardToastManagerThread *)
| ClsSDCardStateChange.   (* SDCardStateChangeToastManagerThread *)

Record Manager := mkManager {
  class_of : cls;
  activation_delay : Z;     (* seconds *)
  duration : Z;             (* seconds *)
  message : option string;
  toast : ToastOverlay
}.

(** The host side touched by a constructor: the buttons singleton and the
    thread objects. *)
Record Host := mkHost {
  override_ind : bool;
  threads_created : nat;
  threads_started : nat
}.

(** Modelled from the spec: [BaseThread.__init__]
    (seedsigner/models/threads.py is outside toast.py) creates the state of
    the unit of execution and does not start it. *)
Definition base_thread_init (h : Host) : Host :=
  mkHost (override_ind h) (S (threads_created h)) (threads_started h).

Definition set_override_ind (b : bool) (h : Host) : Host :=
  mkHost b (threads_created h) (threads_started h).

Definition newline : string := String (Ascii.ascii_of_nat 10) EmptyString.

Section Constructors.

(** Constants of [GUIConstants], [FontAwesomeIconConstants] and [MicroSD],
    which are defined outside toast.py. *)
Variables (NOTIFICATION_COLOR : string).
Variables (ICON_TOAST_FONT_SIZE EDGE_PADDING BODY_FONT_SIZE BODY_LINE_SPACING : Z).
Variable SDCARD : string.
Variables (ACTION__INSERTED ACTION__REMOVED : string).

Definition instantiate_toast (c : cls) (msg : option string)
  : exn + ToastOverlay :=
  match c with
  | ClsBase => inl (ConfigError "Must be implemented by subclass")
  | ClsRemoveSDCard =>
      inr (mkToast (Some SDCARD) NOTIFICATION_COLOR
             (Some ("Security tip:" ++ newline ++ "Remove SD card")%string)
             (BODY_FONT_SIZE * 2 + BODY_LINE_SPACING + EDGE_PADDING)
             BODY_FONT_SIZE 2)
  | ClsSDCardStateChange =>
      inr (mkToast (Some SDCARD) NOTIFICATION_COLOR msg
             (ICON_TOAST_FONT_SIZE + 2 * EDGE_PADDING) 19 2)
  end.

(** [BaseToastOverlayManagerThread.__init__], run on an object of class
    [c]. *)
Definition base_init (c : cls) (msg : option string)
           (delay dur : Z) (h : Host) : (exn + Manager) * Host :=
  let h1 := base_thread_init h in
  let h2 := set_override_ind true h1 in
  match instantiate_toast c msg with
  | inl e => (inl e, h2)
  | inr t => (inr (mkManager c delay dur msg t), h2)
  end.

(** The defaults of [activation_delay] and [duration]. *)
Definition delay_or_default (d : option Z) : Z :=
  match d with Some v => v | None => 0 end.

Definition duration_or_default (d : option Z) : Z :=
  match d with Some v => v | None => 3 end.

Definition new_BaseToastOverlayManagerThread
           (delay dur : option Z) (h : Host) : (exn + Manager) * Host :=
  base_init ClsBase None (delay_or_default delay) (duration_or_default dur) h.

(** [activation_delay=3], [duration=1e6]. *)
Definition new_RemoveSDCardToastManagerThread (h : Host)
  : (exn + Manager) * Host :=
  base_init ClsRemoveSDCard None 3 1000000 h.

Definition new_SDCardStateChangeToastManagerThread (action : string)
           (delay dur : option Z) (h : Host) : (exn + Manager) * Host :=
  if negb (String.eqb action ACTION__INSERTED || String.eqb action ACTION__REMOVED)
  then (inl (ConfigError ("Invalid MicroSD action: " ++ action)%string), h)
  else
    let msg := if String.eqb action ACTION__REMOVED
               then "SD card removed"%string else "SD card inserted"%string in
    base_init ClsSDCardStateChange (Some msg)
      (delay_or_default delay) (duration_or_default dur) h.

End Constructors.

(** [start()] of the thread object. *)
Definition thread_start (h : Host) : Host :=
  mkHost (override_ind h) (threads_created h) (S (threads_started h)).

(** ** [run] *)

(** [should_keep_running]: the base class answers [True], the reminder asks
    the SD card. *)
Definition should_keep_running (m : Manager) : M bool :=
  b <- match class_of m with
       | ClsRemoveSDCard => microsd_is_inserted 130
       | _ => ret true
       end ;;
  modify (emit 130 (EvShouldKeepRunning b)) ;;;
  ret b.

Definition read_keep_running : M bool := fun s =>
  Ret (keep_running s) (emit 130 (EvKeepRunning (keep_running s)) s).

Definition read_toggle : M bool := fun s =>
  Ret (toggle_flag s) (emit 138 (EvToggle (toggle_flag s)) s).

Definition clear_toggle : M unit :=
  modify (fun s => emit 141 EvClearToggle (set_toggle_flag false s)).

(** A read of a local of [run]; an unbound local raises. *)
Definition local {A} (f : State -> option A) : M A := fun s =>
  match f s with
  | Some a => Ret a s
  | None => Raise UnboundLocalError s
  end.

(** [while not self.renderer.lock.locked(): time.sleep(0.1)] *)
Fixpoint wait_locked (fuel : nat) : M unit :=
  match fuel with
  | O => out_of_fuel
  | S fuel' =>
      l <- lock_locked 145 ;;
      if l then ret tt
      else time_sleep 147 100 ;;; wait_locked fuel'
  end.

(** The body of [if self._toggle_renderer_lock:]. *)
Definition yield_lock (fuel : nat) : M unit :=
  clear_toggle ;;;
  lock_release 142 ;;;
  wait_locked fuel ;;;
  lock_acquire 151.

(** The body of [if not has_rendered:]. *)
Definition first_render : M unit :=
  f <- canvas_copy 155 ;;
  modify (set_previous_screen_state (Some f)) ;;;
  toast_render 157 ;;;
  modify (fun s => emit 158 EvHasRendered (set_has_rendered (Some true) s)).

(** One pass through the [while]: the condition, then the body.  [true]:
    the loop goes on; [false]: the condition was false, or a [break]. *)
Definition iteration (fuel : nat) (m : Manager) : M bool :=
  kr <- read_keep_running ;;
  if negb kr then ret false else
  skr <- should_keep_running m ;;
  if negb skr then ret false else
  i <- has_any_input 131 ;;
  if i then ret false else
  time_time 136 ;;;
  tg <- read_toggle ;;
  (if tg then yield_lock fuel else ret tt) ;;;
  hr <- local has_rendered ;;
  (if negb hr then first_render else ret tt) ;;;
  t <- time_time 160 ;;
  st <- local start ;;
  hr' <- (if t - st >? 1000 * (activation_delay m + duration m)
          then local has_rendered else ret false) ;;
  if hr' then ret false else
  time_sleep 165 100 ;;;
  ret true.

(** Lines 154-165, the end of a pass: the first paint, the test of the
    duration, the sleep.  [iteration] ends with these very steps. *)
Definition paint_and_wait (m : Manager) : M bool :=
  hr <- local has_rendered ;;
  (if negb hr then first_render else ret tt) ;;;
  t <- time_time 160 ;;
  st <- local start ;;
  hr' <- (if t - st >? 1000 * (activation_delay m + duration m)
          then local has_rendered else ret false) ;;
  if hr' then ret false else
  time_sleep 165 100 ;;;
  ret true.

Fixpoint monitor (fuel : nat) (m : Manager) : M unit :=
  match fuel with
  | O => out_of_fuel
  | S fuel' =>
      go <- iteration fuel' m ;;
      if go then monitor fuel' m else ret tt
  end.

(** The body of [try:]. *)
Definition run_body (fuel : nat) (m : Manager) : M unit :=
  t <- time_time 119 ;;
  modify (set_start (Some t)) ;;;
  modify (set_has_rendered (Some false)) ;;;
  modify (set_previous_screen_state None) ;;;
  (if activation_delay m >? 0
   then time_sleep 123 (1000 * activation_delay m) else ret tt) ;;;
  lock_acquire 128 ;;;
  monitor fuel m.

(** The body of [finally:]. *)
Definition cleanup : M unit :=
  hr <- local has_rendered ;;
  l <- (if hr then lock_locked 169 else ret false) ;;
  (if l then
     prev <- get previous_screen_state ;;
     show_image 171 prev
   else ret tt) ;;;
  lock_release 174.

Definition run (fuel : nat) (m : Manager) : M unit :=
  try_finally (run_body fuel m) cleanup.

(** The world in which a thread is started: the clock at 0, nothing
    requested, the locals of [run] unbound. *)
Definition initial (h : holder) (ins : bool) (scr : frame)
           (sc : list (Z * env_action)) (fl : nat -> bool) : State :=
  mkState 0 h true false false ins scr sc 0 fl [] None None None.

Definition no_faults : nat -> bool := fun _ => false.
Definition fault_at (n : nat) : nat -> bool := fun k => Nat.eqb k n.

(** What [should_keep_running] answers in a state. *)
Definition continuation (m : Manager) (s : State) : bool :=
  match class_of m with
  | ClsRemoveSDCard => inserted s
  | _ => true
  end.


(** [same_world s s']: [s'] is [s] but for the log and the call counter. *)
Record same_world (s s' : State) : Prop := {
  sw_now : now s' = now s;
  sw_lock : lock s' = lock s;
  sw_keep : keep_running s' = keep_running s;
  sw_toggle : toggle_flag s' = toggle_flag s;
  sw_input : input s' = input s;
  sw_inserted : inserted s' = inserted s;
  sw_screen : screen s' = screen s;
  sw_script : script s' = script s;
  sw_faults : faults s' = faults s;
  sw_start : start s' = start s;
  sw_rendered : has_rendered s' = has_rendered s;
  sw_prev : previous_screen_state s' = previous_screen_state s
}.


(** Symbolic execution of a run: the definitions of the embedding are
    unfolded, the arithmetic on [Z] is left as it is. *)
Ltac exec :=
  cbv beta iota zeta delta
    [run try_finally run_body cleanup bind ret out_of_fuel get modify
     local call time_time time_sleep lock_acquire lock_release lock_locked
     has_any_input microsd_is_inserted canvas_copy toast_render show_image
     should_keep_running read_keep_running read_toggle clear_toggle
     wait_locked yield_lock first_render iteration monitor
     advance deliver acquire_wait apply_action toggle_renderer_lock emit
     emit_at initial no_faults
     is_locked negb andb app final
     set_now set_lock set_keep_running set_toggle_flag set_input set_inserted
     set_screen set_script set_calls set_log set_start set_has_rendered
     set_previous_screen_state
     now lock keep_running toggle_flag input inserted screen script calls
     faults log start has_rendered previous_screen_state].

(** * Properties *)

(** ** What the other threads can and cannot change *)

Definition env_entry (x : entry) : Prop :=
  at_line x = 0%nat /\ exists a, what x = EvEnv a.

(** [s'] is [s] after other threads acted: the locals of [run], the oracle
    and the call counter are untouched, the log grew by entries of the
    other threads, and a lock held by the toast thread is still held. *)
Record env_step (s s' : State) : Prop := {
  env_log : exists l, log s' = log s ++ l /\ Forall env_entry l;
  env_start : start s' = start s;
  env_has_rendered : has_rendered s' = has_rendered s;
  env_previous : previous_screen_state s' = previous_screen_state s;
  env_faults : faults s' = faults s;
  env_calls : calls s' = calls s;
  env_lock : lock s = Me -> lock s' = Me;
  env_screen : lock s = Me -> screen s' = screen s
}.

Lemma env_step_refl s : env_step s s.
Proof.
  constructor; auto. exists []. rewrite app_nil_r. auto.
Qed.

Lemma env_step_trans s1 s2 s3 :
  env_step s1 s2 -> env_step s2 s3 -> env_step s1 s3.
Proof.
  intros [[l1 [L1 F1]] A1 B1 C1 D1 E1 G1 H1] [[l2 [L2 F2]] A2 B2 C2 D2 E2 G2 H2].
  constructor; try congruence.
  - exists (l1 ++ l2). rewrite L2, L1, app_assoc. split; auto.
    apply Forall_app; auto.
  - auto.
  - intros Hm. rewrite H2; auto.
Qed.

Lemma env_entry_intro t a : env_entry (mkEntry t 0 (EvEnv a)).
Proof. split; cbn; eauto. Qed.

Lemma apply_action_env t a s : env_step s (apply_action t a s).
Proof.
  destruct a; cbn; try destruct (lock s) eqn:L;
    try apply env_step_refl;
    (constructor; cbn; auto; try congruence;
     [eexists; split; [reflexivity | repeat constructor; apply env_entry_intro]]).
Qed.

Lemma set_script_env p s : env_step s (set_script p s).
Proof.
  constructor; cbn; auto. exists []. rewrite app_nil_r. auto.
Qed.

Lemma set_now_env t s : env_step s (set_now t s).
Proof.
  constructor; cbn; auto. exists []. rewrite app_nil_r. auto.
Qed.

Lemma deliver_env t p : forall s, env_step s (deliver t p s).
Proof.
  induction p as [|[ta a] rest IH]; intros s; cbn.
  - apply set_script_env.
  - destruct (ta <=? t).
    + eapply env_step_trans; [apply apply_action_env | apply IH].
    + apply set_script_env.
Qed.

Lemma advance_env t s : env_step s (advance t s).
Proof.
  unfold advance. eapply env_step_trans; [apply deliver_env | apply set_now_env].
Qed.

(** A blocking acquire that returns has taken a free lock. *)
Lemma acquire_wait_spec p : forall s s',
  acquire_wait p s = Some s' ->
  exists s1, env_step s s1 /\ lock s1 = Free /\ s' = set_script (script s') (set_lock Me s1).
Proof.
  induction p as [|[ta a] rest IH]; intros s s' H; cbn in H.
  - destruct (lock s) eqn:L; try discriminate. inversion H; subst.
    exists s. split; [apply env_step_refl | split; auto].
  - destruct (lock s) eqn:L.
    + inversion H; subst. exists s. split; [apply env_step_refl | split; auto].
    + apply IH in H. destruct H as [s1 [E [F Eq]]]. exists s1. split; auto.
      eapply env_step_trans; [| exact E].
      eapply env_step_trans; [apply set_now_env | apply apply_action_env].
    + apply IH in H. destruct H as [s1 [E [F Eq]]]. exists s1. split; auto.
      eapply env_step_trans; [| exact E].
      eapply env_step_trans; [apply set_now_env | apply apply_action_env].
Qed.

(** ** A program logic for the monad

    [hoare P m Q E]: from a state in [P], [m] ends in [Q] when it returns
    and in [E] when it raises, blocks or is cut by the fuel. *)
Definition hoare {A} (P : State -> Prop) (m : M A)
           (Q : A -> State -> Prop) (E : State -> Prop) : Prop :=
  forall s, P s ->
    match m s with
    | Ret a s' => Q a s'
    | Raise _ s' | Blocked s' | OutOfFuel s' => E s'
    end.

Lemma hoare_bind {A B} P (m : M A) R (k : A -> M B) Q E :
  hoare P m R E -> (forall a, hoare (R a) (k a) Q E) ->
  hoare P (bind m k) Q E.
Proof.
  intros Hm Hk s HP. unfold bind. specialize (Hm s HP).
  destruct (m s); auto. apply Hk. exact Hm.
Qed.

Lemma hoare_weaken {A} (P P' : State -> Prop) (m : M A)
      (Q Q' : A -> State -> Prop) (E E' : State -> Prop) :
  hoare P m Q E ->
  (forall s, P' s -> P s) -> (forall a s, Q a s -> Q' a s) ->
  (forall s, E s -> E' s) ->
  hoare P' m Q' E'.
Proof.
  intros H HP HQ HE s Hs. specialize (H s (HP s Hs)).
  destruct (m s); auto.
Qed.

(** A step that adds nothing to the log but entries that are neither a
    capture, nor a paint, nor the setting of [has_rendered], and that
    leaves [has_rendered] alone. *)
Definition quiet_entry (x : entry) : Prop :=
  match what x with
  | EvCapture _ _ | EvRender _ | EvHasRendered => False
  | _ => True
  end.

Record quiet_step (s s' : State) : Prop := {
  quiet_log : exists l, log s' = log s ++ l /\ Forall quiet_entry l;
  quiet_has_rendered : has_rendered s' = has_rendered s
}.

Lemma quiet_step_refl s : quiet_step s s.
Proof. constructor; auto. exists []. rewrite app_nil_r. auto. Qed.

Lemma quiet_step_trans s1 s2 s3 :
  quiet_step s1 s2 -> quiet_step s2 s3 -> quiet_step s1 s3.
Proof.
  intros [[l1 [L1 F1]] A1] [[l2 [L2 F2]] A2]. constructor; try congruence.
  exists (l1 ++ l2). rewrite L2, L1, app_assoc. split; auto.
  apply Forall_app; auto.
Qed.

Lemma env_entry_quiet x : env_entry x -> quiet_entry x.
Proof. intros [_ [a H]]. unfold quiet_entry. rewrite H. exact I. Qed.

Lemma env_step_quiet s s' : env_step s s' -> quiet_step s s'.
Proof.
  intros [[l [L F]] _ B _ _ _ _ _]. constructor; auto.
  exists l. split; auto. eapply Forall_impl; [| exact F].
  apply env_entry_quiet.
Qed.

Lemma quiet_one s s' x :
  log s' = log s ++ [x] -> quiet_entry x ->
  has_rendered s' = has_rendered s -> quiet_step s s'.
Proof. intros L Q H. constructor; auto. exists [x]. split; auto. Qed.

Lemma quiet_none s s' :
  log s' = log s -> has_rendered s' = has_rendered s -> quiet_step s s'.
Proof.
  intros L H. constructor; auto. exists []. rewrite app_nil_r. auto.
Qed.

(** [keeps s s']: a lock held by the toast thread in [s] is held in [s']. *)
Definition keeps (s s' : State) : Prop := lock s = Me -> lock s' = Me.

Ltac run_call :=
  unfold call; cbn;
  match goal with
  | |- context [faults ?s (calls ?s)] => destruct (faults s (calls s)); cbn
  end.

Ltac one_quiet := eapply quiet_one; cbn; [reflexivity | exact I | reflexivity].

Lemma time_time_quiet line s : quiet_step s (final (time_time line s)).
Proof. unfold time_time. run_call; one_quiet. Qed.

Lemma time_time_keeps line s : keeps s (final (time_time line s)).
Proof. unfold time_time, keeps. run_call; auto. Qed.

Lemma time_sleep_quiet line ms s : quiet_step s (final (time_sleep line ms s)).
Proof.
  unfold time_sleep. run_call; [one_quiet |].
  eapply quiet_step_trans; [| apply env_step_quiet, advance_env].
  one_quiet.
Qed.

Lemma time_sleep_keeps line ms s : keeps s (final (time_sleep line ms s)).
Proof.
  unfold time_sleep, keeps. run_call; auto. intros L.
  refine (env_lock _ _ (advance_env (now s + ms)
            (emit line (EvSleep ms) (set_calls (S (calls s)) s))) _).
  exact L.
Qed.

Lemma lock_locked_quiet line s : quiet_step s (final (lock_locked line s)).
Proof. unfold lock_locked. run_call; one_quiet. Qed.

Lemma lock_locked_keeps line s : keeps s (final (lock_locked line s)).
Proof. unfold lock_locked, keeps. run_call; auto. Qed.

Lemma lock_release_quiet line s : quiet_step s (final (lock_release line s)).
Proof. unfold lock_release. run_call; one_quiet. Qed.

Lemma has_any_input_quiet line s : quiet_step s (final (has_any_input line s)).
Proof. unfold has_any_input. run_call; one_quiet. Qed.

Lemma has_any_input_keeps line s : keeps s (final (has_any_input line s)).
Proof. unfold has_any_input, keeps. run_call; auto. Qed.

Lemma show_image_quiet line f s : quiet_step s (final (show_image line f s)).
Proof. unfold show_image. run_call; [one_quiet |]. destruct f; one_quiet. Qed.

Lemma lock_acquire_quiet line s : quiet_step s (final (lock_acquire line s)).
Proof.
  unfold lock_acquire. run_call; [one_quiet |].
  destruct (acquire_wait (script s) _) as [s'|] eqn:W; cbn.
  - apply acquire_wait_spec in W. destruct W as [s1 [E [F Eq]]].
    apply env_step_quiet in E.
    apply quiet_step_trans with (set_calls (S (calls s)) s);
      [apply quiet_none; reflexivity |].
    apply quiet_step_trans with s1; [exact E |].
    rewrite Eq. one_quiet.
  - apply quiet_none; reflexivity.
Qed.

Lemma lock_acquire_ret line s s' :
  lock_acquire line s = Ret tt s' -> lock s' = Me.
Proof.
  unfold lock_acquire, call. destruct (faults s (calls s)); [discriminate|].
  destruct (acquire_wait _ _) as [s1|] eqn:W; [| discriminate].
  intros H. inversion H; subst. apply acquire_wait_spec in W.
  destruct W as [s2 [_ [_ Eq]]]. rewrite Eq. reflexivity.
Qed.

Lemma should_keep_running_quiet m s :
  quiet_step s (final (should_keep_running m s)).
Proof.
  unfold should_keep_running, bind, microsd_is_inserted.
  destruct (class_of m); cbn; try one_quiet.
  unfold call. destruct (faults s (calls s)); cbn; one_quiet.
Qed.

Lemma should_keep_running_keeps m s : keeps s (final (should_keep_running m s)).
Proof.
  unfold should_keep_running, bind, microsd_is_inserted, keeps.
  destruct (class_of m); cbn; auto.
  unfold call. destruct (faults s (calls s)); cbn; auto.
Qed.

(** ** Painting only under the lock *)

(** A capture or a paint in the log was made by the holder of the lock. *)
Definition paints_with_lock (x : entry) : Prop :=
  match what x with
  | EvCapture _ h => h = Me
  | EvRender h => h = Me
  | _ => True
  end.

(** Whenever the log records that [has_rendered] was set, the entry just
    before it is the paint that returned. *)
Definition rendered_after_paint (l : list entry) : Prop :=
  forall l1 x l2, l = l1 ++ x :: l2 -> what x = EvHasRendered ->
    exists l0 p, l1 = l0 ++ [p] /\ what p = EvRender Me.

(** [has_rendered] is true only if a paint is in the log. *)
Definition flag_after_paint (s : State) : Prop :=
  has_rendered s = Some true ->
  exists x, In x (log s) /\ what x = EvRender Me.

Record safe (s : State) : Prop := {
  safe_paint : Forall paints_with_lock (log s);
  safe_order : rendered_after_paint (log s);
  safe_flag : flag_after_paint s
}.

Definition held (s : State) : Prop := safe s /\ lock s = Me.

Lemma quiet_paints x : quiet_entry x -> paints_with_lock x.
Proof. unfold quiet_entry, paints_with_lock. destruct (what x); tauto. Qed.

Lemma rendered_after_paint_app l q :
  rendered_after_paint l -> Forall (fun x => what x <> EvHasRendered) q ->
  rendered_after_paint (l ++ q).
Proof.
  intros H Q l1 x l2 Eq Hx.
  apply app_eq_app in Eq. destruct Eq as [r [[E1 E2] | [E1 E2]]].
  - destruct r as [| y r].
    + rewrite app_nil_r in E1. subst l. cbn in E2. subst q.
      inversion Q; subst. tauto.
    + cbn in E2. inversion E2; subst. apply (H l1 y r); auto.
  - subst l1. rewrite Forall_forall in Q.
    assert (In x q) by (rewrite E2; apply in_or_app; right; left; auto).
    apply Q in H0. tauto.
Qed.

Lemma quiet_not_flag x : quiet_entry x -> what x <> EvHasRendered.
Proof. unfold quiet_entry. intros Q E. rewrite E in Q. exact Q. Qed.

Lemma safe_quiet s s' : safe s -> quiet_step s s' -> safe s'.
Proof.
  intros [P O F] [[l [L Q]] R]. constructor.
  - rewrite L. apply Forall_app. split; auto.
    eapply Forall_impl; [| exact Q]. apply quiet_paints.
  - rewrite L. apply rendered_after_paint_app; auto.
    eapply Forall_impl; [| exact Q]. apply quiet_not_flag.
  - intros H. rewrite R in H. destruct (F H) as [x [I W]].
    exists x. split; auto. rewrite L. apply in_or_app. auto.
Qed.

(** A step that is quiet and keeps the lock preserves both assertions. *)
Lemma hoare_quiet_held {A} (m : M A) :
  (forall s, quiet_step s (final (m s))) ->
  (forall s, keeps s (final (m s))) ->
  hoare held m (fun _ => held) safe.
Proof.
  intros Q K s [S L]. specialize (Q s). specialize (K s L).
  destruct (m s); cbn in *; [split; auto | | |]; apply (safe_quiet s); auto.
Qed.

Lemma hoare_quiet_safe {A} (m : M A) :
  (forall s, quiet_step s (final (m s))) ->
  hoare safe m (fun _ => safe) safe.
Proof.
  intros Q s S. specialize (Q s).
  destruct (m s); cbn in *; apply (safe_quiet s); auto.
Qed.

Lemma wait_locked_quiet fuel : forall s, quiet_step s (final (wait_locked fuel s)).
Proof.
  induction fuel as [| n IH]; intros s; cbn.
  - apply quiet_step_refl.
  - unfold bind. pose proof (lock_locked_quiet 145 s) as Q1.
    destruct (lock_locked 145 s) as [l s1 | | |]; cbn in *; auto.
    destruct l; cbn; auto.
    pose proof (time_sleep_quiet 147 100 s1) as Q2.
    destruct (time_sleep 147 100 s1) as [u s2 | | |]; cbn in *;
      eauto using quiet_step_trans.
Qed.

Lemma yield_lock_held fuel : hoare held (yield_lock fuel) (fun _ => held) safe.
Proof.
  intros s [S L]. unfold yield_lock, bind, clear_toggle, modify.
  set (s0 := emit 141 EvClearToggle (set_toggle_flag false s)).
  assert (S0 : safe s0) by (apply (safe_quiet s); auto; one_quiet).
  pose proof (lock_release_quiet 142 s0) as Q1.
  destruct (lock_release 142 s0) as [u1 s1 | | |]; cbn in Q1;
    try (eapply safe_quiet; eauto; fail).
  pose proof (wait_locked_quiet fuel s1) as Q2.
  destruct (wait_locked fuel s1) as [u2 s2 | | |]; cbn in Q2;
    try (eapply safe_quiet; [| exact Q2]; eapply safe_quiet; eauto; fail).
  pose proof (lock_acquire_quiet 151 s2) as Q3.
  assert (S2 : safe s2) by (eapply safe_quiet; [| exact Q2]; eapply safe_quiet; eauto).
  destruct (lock_acquire 151 s2) as [u3 s3 | | |] eqn:A; cbn in Q3;
    try (eapply safe_quiet; eauto; fail).
  split; [eapply safe_quiet; eauto |].
  destruct u3. eapply lock_acquire_ret; eauto.
Qed.

(** The first paint: made under the lock, and [has_rendered] is set only
    after [render] has returned. *)
Lemma first_render_held : hoare held first_render (fun _ => held) safe.
Proof.
  intros s [[P O F] L]. unfold first_render, bind, canvas_copy, toast_render, modify.
  unfold call; cbn. destruct (faults s (calls s)); cbn.
  - apply (safe_quiet s); [constructor; auto | one_quiet].
  - destruct (faults s (S (calls s))); cbn.
    + constructor; cbn.
      * repeat (rewrite Forall_app; split); auto;
          repeat constructor; unfold paints_with_lock; cbn; auto.
      * rewrite <- app_assoc. apply rendered_after_paint_app; auto.
        repeat constructor; cbn; discriminate.
      * intros H. destruct (F H) as [x [I W]]. exists x. split; auto.
        repeat (apply in_or_app; left). exact I.
    + split; [| exact L]. constructor; cbn.
      * repeat (rewrite Forall_app; split); auto;
          repeat constructor; unfold paints_with_lock; cbn; auto.
      * intros l1 x l2 Eq Hx.
        destruct l2 as [| y l2].
        -- apply app_inj_tail in Eq. destruct Eq as [Eq _]. subst l1.
           eexists. eexists. split; [reflexivity |]. cbn. rewrite L. reflexivity.
        -- assert (Hl2 : exists l2' z, y :: l2 = l2' ++ [z]).
           { destruct (exists_last (l := y :: l2)) as [l2' [z E]];
               [discriminate | eauto]. }
           destruct Hl2 as [l2' [z E2]]. rewrite E2 in Eq.
           rewrite app_comm_cons, app_assoc in Eq.
           apply app_inj_tail in Eq. destruct Eq as [Eq _].
           assert (R : rendered_after_paint
                        ((log s ++ [mkEntry (now s) 155 (EvCapture (screen s) (lock s))])
                           ++ [mkEntry (now s) 157 (EvRender (lock s))])).
           { rewrite <- app_assoc. apply rendered_after_paint_app; auto.
             repeat constructor; cbn; discriminate. }
           apply (R l1 x l2'); auto.
      * intros _. eexists. split.
        -- apply in_or_app. left. apply in_or_app. right. left. reflexivity.
        -- cbn. rewrite L. reflexivity.
Qed.

Lemma hoare_ret' {A} (a : A) (P : State -> Prop) (Q : A -> State -> Prop) E :
  (forall s, P s -> Q a s) -> hoare P (ret a) Q E.
Proof. intros H s Hs. apply H. exact Hs. Qed.

Lemma read_keep_running_quiet s : quiet_step s (final (read_keep_running s)).
Proof. cbn. one_quiet. Qed.

Lemma read_toggle_quiet s : quiet_step s (final (read_toggle s)).
Proof. cbn. one_quiet. Qed.

Lemma local_same {A} (f : State -> option A) s : final (local f s) = s.
Proof. unfold local. destruct (f s); reflexivity. Qed.

Lemma local_quiet {A} (f : State -> option A) s : quiet_step s (final (local f s)).
Proof. rewrite local_same. apply quiet_step_refl. Qed.

Lemma local_keeps {A} (f : State -> option A) s : keeps s (final (local f s)).
Proof. rewrite local_same. intros L. exact L. Qed.

Ltac quiet_held :=
  apply hoare_quiet_held; intros;
  first [ apply time_time_quiet | apply time_time_keeps
        | apply time_sleep_quiet | apply time_sleep_keeps
        | apply has_any_input_quiet | apply has_any_input_keeps
        | apply should_keep_running_quiet | apply should_keep_running_keeps
        | apply read_keep_running_quiet | apply read_toggle_quiet
        | apply local_quiet | apply local_keeps
        | (intros ?; assumption) ].

Lemma iteration_held fuel m : hoare held (iteration fuel m) (fun _ => held) safe.
Proof.
  unfold iteration.
  eapply hoare_bind; [quiet_held | intros kr].
  destruct kr; cbn [negb]; [| apply hoare_ret'; auto].
  eapply hoare_bind; [quiet_held | intros skr].
  destruct skr; cbn [negb]; [| apply hoare_ret'; auto].
  eapply hoare_bind; [quiet_held | intros i].
  destruct i; [apply hoare_ret'; auto |].
  eapply hoare_bind; [quiet_held | intros ?].
  eapply hoare_bind; [quiet_held | intros tg].
  eapply hoare_bind with (R := fun _ => held).
  { destruct tg; [apply yield_lock_held | apply hoare_ret'; auto]. }
  intros ?.
  eapply hoare_bind; [quiet_held | intros hr].
  eapply hoare_bind with (R := fun _ => held).
  { destruct hr; cbn [negb]; [apply hoare_ret'; auto | apply first_render_held]. }
  intros ?.
  eapply hoare_bind; [quiet_held | intros t].
  eapply hoare_bind; [quiet_held | intros st].
  eapply hoare_bind with (R := fun _ => held).
  { destruct (t - st >? _); [quiet_held | apply hoare_ret'; auto]. }
  intros hr'. destruct hr'; [apply hoare_ret'; auto |].
  eapply hoare_bind; [quiet_held | intros ?].
  apply hoare_ret'; auto.
Qed.

Lemma monitor_held fuel m : hoare held (monitor fuel m) (fun _ => held) safe.
Proof.
  induction fuel as [| n IH]; cbn.
  - intros s [S _]. exact S.
  - eapply hoare_bind; [apply iteration_held | intros go].
    destruct go; [exact IH | apply hoare_ret'; auto].
Qed.

Lemma run_body_safe fuel m : hoare safe (run_body fuel m) (fun _ => safe) safe.
Proof.
  unfold run_body.
  eapply hoare_bind; [apply hoare_quiet_safe; intros; apply time_time_quiet |].
  intros t.
  eapply hoare_bind.
  { instantiate (1 := fun _ => safe). intros s S. cbn.
    apply (safe_quiet s); auto. apply quiet_none; reflexivity. }
  intros ?.
  eapply hoare_bind.
  { instantiate (1 := fun _ => safe). intros s [P O F]. cbn.
    constructor; cbn; auto. intros H. discriminate. }
  intros ?.
  eapply hoare_bind.
  { instantiate (1 := fun _ => safe). intros s S. cbn.
    apply (safe_quiet s); auto. apply quiet_none; reflexivity. }
  intros ?.
  eapply hoare_bind.
  { instantiate (1 := fun _ => safe).
    destruct (activation_delay m >? 0);
      [apply hoare_quiet_safe; intros; apply time_sleep_quiet
      | apply hoare_ret'; auto]. }
  intros ?.
  eapply hoare_bind.
  { instantiate (1 := fun _ => held). intros s S.
    pose proof (lock_acquire_quiet 128 s) as Q.
    destruct (lock_acquire 128 s) as [[] s1 | | |] eqn:A; cbn in Q;
      try (apply (safe_quiet s); auto; fail).
    split; [apply (safe_quiet s); auto | eapply lock_acquire_ret; eauto]. }
  intros ?.
  eapply hoare_weaken; [apply monitor_held | auto | | auto].
  intros _ s [S _]. exact S.
Qed.

Lemma cleanup_safe : hoare safe cleanup (fun _ => safe) safe.
Proof.
  unfold cleanup.
  eapply hoare_bind; [apply hoare_quiet_safe; intros; apply local_quiet |].
  intros hr.
  eapply hoare_bind.
  { instantiate (1 := fun _ => safe).
    destruct hr; [apply hoare_quiet_safe; intros; apply lock_locked_quiet
                 | apply hoare_ret'; auto]. }
  intros l.
  eapply hoare_bind.
  { instantiate (1 := fun _ => safe).
    destruct l; [| apply hoare_ret'; auto].
    eapply hoare_bind.
    { instantiate (1 := fun _ => safe). intros s S. exact S. }
    intros prev. apply hoare_quiet_safe; intros; apply show_image_quiet. }
  intros ?. apply hoare_quiet_safe; intros; apply lock_release_quiet.
Qed.

Lemma hoare_try_finally {A} P (body : M A) fin R E :
  hoare P body (fun _ => R) R ->
  hoare R fin (fun _ => E) E ->
  (forall s, R s -> E s) ->
  hoare P (try_finally body fin) (fun _ => E) E.
Proof.
  intros Hb Hf RE s HP. unfold try_finally. specialize (Hb s HP).
  destruct (body s) as [a s1 | e s1 | s1 | s1]; auto;
    specialize (Hf s1 Hb); destruct (fin s1); auto.
Qed.

Lemma run_safe fuel m : hoare safe (run fuel m) (fun _ => safe) safe.
Proof.
  unfold run. eapply hoare_try_finally;
    [apply run_body_safe | apply cleanup_safe | auto].
Qed.

Lemma initial_safe h ins scr sc fl : safe (initial h ins scr sc fl).
Proof.
  constructor; cbn.
  - constructor.
  - intros l1 x l2 Eq. destruct l1; discriminate.
  - intros H. discriminate.
Qed.

(** C3.  In every execution of [run], whatever the other threads do,
    whichever call raises and wherever the run is observed (returned,
    raised, blocked, or still looping): every capture of the previous frame
    and every paint of the toast in the log was made while the toast thread
    held the lock; each setting of [has_rendered] comes right after the
    paint that returned; and [has_rendered] is true only if a paint made
    under the lock is in the log. *)
Theorem C3_paint_only_under_lock :
  forall fuel m h ins scr sc fl,
    let s := final (run fuel m (initial h ins scr sc fl)) in
    (forall x f h', In x (log s) -> what x = EvCapture f h' -> h' = Me) /\
    (forall x h', In x (log s) -> what x = EvRender h' -> h' = Me) /\
    (forall l1 x l2, log s = l1 ++ x :: l2 -> what x = EvHasRendered ->
       exists l0 p, l1 = l0 ++ [p] /\ what p = EvRender Me) /\
    (has_rendered s = Some true ->
       exists x, In x (log s) /\ what x = EvRender Me).
Proof.
  intros fuel m h ins scr sc fl s.
  assert (S : safe s).
  { pose proof (run_safe fuel m _ (initial_safe h ins scr sc fl)) as H.
    subst s. destruct (run fuel m _); exact H. }
  destruct S as [P O F]. rewrite Forall_forall in P.
  repeat split; auto.
  - intros x f h' I W. specialize (P x I). unfold paints_with_lock in P.
    rewrite W in P. exact P.
  - intros x h' I W. specialize (P x I). unfold paints_with_lock in P.
    rewrite W in P. exact P.
Qed.

(** ** Construction *)

Section ConstructorProperties.

Variables (NOTIFICATION_COLOR : string).
Variables (ICON_TOAST_FONT_SIZE EDGE_PADDING BODY_FONT_SIZE BODY_LINE_SPACING : Z).
Variable SDCARD : string.
Variables (ACTION__INSERTED ACTION__REMOVED : string).

Let new_base :=
  new_BaseToastOverlayManagerThread NOTIFICATION_COLOR ICON_TOAST_FONT_SIZE
    EDGE_PADDING BODY_FONT_SIZE BODY_LINE_SPACING SDCARD.
Let new_remove :=
  new_RemoveSDCardToastManagerThread NOTIFICATION_COLOR ICON_TOAST_FONT_SIZE
    EDGE_PADDING BODY_FONT_SIZE BODY_LINE_SPACING SDCARD.
Let new_change :=
  new_SDCardStateChangeToastManagerThread NOTIFICATION_COLOR
    ICON_TOAST_FONT_SIZE EDGE_PADDING BODY_FONT_SIZE BODY_LINE_SPACING SDCARD
    ACTION__INSERTED ACTION__REMOVED.

(** Every constructor call there is. *)
Inductive construction :=
| NewBase (delay dur : option Z)
| NewRemoveSDCard
| NewSDCardStateChange (action : string) (delay dur : option Z).

Definition construct (c : construction) (h : Host) : (exn + Manager) * Host :=
  match c with
  | NewBase delay dur => new_base delay dur h
  | NewRemoveSDCard => new_remove h
  | NewSDCardStateChange action delay dur => new_change action delay dur h
  end.

Lemma base_init_host c msg delay dur h :
  snd (base_init NOTIFICATION_COLOR ICON_TOAST_FONT_SIZE EDGE_PADDING
         BODY_FONT_SIZE BODY_LINE_SPACING SDCARD c msg delay dur h)
  = set_override_ind true (base_thread_init h).
Proof. unfold base_init. destruct (instantiate_toast _ _ _ _ _ _ c msg); reflexivity. Qed.

(** C6.  The base class, whose [instantiate_toast] is not supplied,
    raises inside the constructor, and no constructor starts a thread;
    the state-change variant given an action that is neither of the two
    valid ones raises before anything else happens: the host is left as
    it was, no thread state created. *)
Theorem C6_configuration_errors :
  forall (action : string) (delay dur : option Z) (h : Host),
    action <> ACTION__INSERTED -> action <> ACTION__REMOVED ->
    (exists h',
        new_base delay dur h
        = (inl (ConfigError "Must be implemented by subclass"), h') /\
        threads_started h' = threads_started h) /\
    new_change action delay dur h
    = (inl (ConfigError ("Invalid MicroSD action: " ++ action)%string), h) /\
    (forall c, threads_started (snd (construct c h)) = threads_started h).
Proof.
  intros action delay dur h Hi Hr. split; [| split].
  - eexists. split; reflexivity.
  - unfold new_change, new_SDCardStateChangeToastManagerThread.
    apply String.eqb_neq in Hi. apply String.eqb_neq in Hr.
    rewrite Hi, Hr. reflexivity.
  - intros [d u | | a d u]; cbn.
    + reflexivity.
    + reflexivity.
    + unfold new_change, new_SDCardStateChangeToastManagerThread.
      destruct (negb _); reflexivity.
Qed.

(** C10.  A constructor call that succeeds, of whichever class, has set
    [override_ind] of the buttons singleton, and has not started the
    thread. *)
Theorem C10_construction_sets_override :
  forall (c : construction) (h h' : Host) (m : Manager),
    construct c h = (inr m, h') ->
    override_ind h' = true /\ threads_started h' = threads_started h.
Proof.
  intros c h h' m H.
  destruct c as [d u | | a d u]; cbn in H.
  - discriminate.
  - inversion H; subst. split; reflexivity.
  - unfold new_change, new_SDCardStateChangeToastManagerThread in H.
    destruct (negb _); [discriminate |].
    inversion H; subst. split; reflexivity.
Qed.

End ConstructorProperties.

Definition host0 : Host := mkHost false 0 0.

Lemma C6_witness :
  new_SDCardStateChangeToastManagerThread "orange" 24 8 20 4 "sd" "add" "remove"
    "eject" None None host0
  = (inl (ConfigError "Invalid MicroSD action: eject"), host0).
Proof.
  apply (C6_configuration_errors "orange" 24 8 20 4 "sd" "add" "remove"
           "eject" None None host0); discriminate.
Defined.

Lemma C10_witness :
  override_ind
    (snd (construct "orange" 24 8 20 4 "sd" "add" "remove"
            (NewSDCardStateChange "remove" None None) host0)) = true.
Proof.
  apply (C10_construction_sets_override "orange" 24 8 20 4 "sd" "add" "remove"
           (NewSDCardStateChange "remove" None None) host0 _
           (mkManager ClsSDCardStateChange 0 3 (Some "SD card removed"%string)
              (mkToast (Some "sd"%string) "orange" (Some "SD card removed"%string)
                 (24 + 2 * 8) 19 2))).
  reflexivity.
Defined.

(** ** What the body of [try] can do *)

(** [preserves R m]: every outcome of [m] is related by [R] to the state
    [m] started from. *)
Definition preserves {A} (R : State -> State -> Prop) (m : M A) : Prop :=
  forall s, R s (final (m s)).

Lemma preserves_bind {A B} (R : State -> State -> Prop) (m : M A) (k : A -> M B) :
  (forall s1 s2 s3, R s1 s2 -> R s2 s3 -> R s1 s3) ->
  preserves R m -> (forall a, preserves R (k a)) -> preserves R (bind m k).
Proof.
  intros T Hm Hk s. unfold bind. specialize (Hm s).
  destruct (m s) as [a s1 | | |]; cbn in *; auto.
  eapply T; [exact Hm | apply Hk].
Qed.

Lemma preserves_ret {A} (R : State -> State -> Prop) (a : A) :
  (forall s, R s s) -> preserves R (ret a).
Proof. intros H s. apply H. Qed.

(** A step of the body: it logs only at lines of the body (before line 167,
    0 for the other threads), keeps a bound [has_rendered] bound, leaves the
    oracle alone and never lowers the call counter. *)
Record body_step (s s' : State) : Prop := {
  body_log : exists l, log s' = log s ++ l /\
                       Forall (fun x => (at_line x < 167)%nat) l;
  body_bound : has_rendered s <> None -> has_rendered s' <> None;
  body_faults : faults s' = faults s;
  body_calls : (calls s <= calls s')%nat
}.

Lemma body_step_refl s : body_step s s.
Proof. constructor; auto. exists []. rewrite app_nil_r. auto. Qed.

Lemma body_step_trans s1 s2 s3 :
  body_step s1 s2 -> body_step s2 s3 -> body_step s1 s3.
Proof.
  intros [[l1 [L1 F1]] B1 O1 C1] [[l2 [L2 F2]] B2 O2 C2].
  constructor; auto; try congruence; try lia.
  exists (l1 ++ l2). rewrite L2, L1, app_assoc. split; auto.
  apply Forall_app; auto.
Qed.

Lemma env_step_body s s' : env_step s s' -> body_step s s'.
Proof.
  intros [[l [L F]] _ B _ O C _ _]. constructor; auto; try congruence; try lia.
  exists l. split; auto. eapply Forall_impl; [| exact F].
  intros x [Z _]. rewrite Z. lia.
Qed.

Lemma body_one s s' x :
  log s' = log s ++ [x] -> (at_line x < 167)%nat ->
  has_rendered s' = has_rendered s -> faults s' = faults s ->
  (calls s <= calls s')%nat -> body_step s s'.
Proof.
  intros L X H F C. constructor; auto; try congruence.
  exists [x]. split; auto.
Qed.

Ltac one_body :=
  eapply body_one;
  [cbn; reflexivity | cbn; lia | reflexivity | reflexivity | cbn; lia].

Lemma time_time_body line : (line < 167)%nat -> preserves body_step (time_time line).
Proof. intros H s. unfold time_time. run_call; one_body. Qed.

Lemma time_sleep_body line ms :
  (line < 167)%nat -> preserves body_step (time_sleep line ms).
Proof.
  intros H s. unfold time_sleep. run_call; [one_body |].
  eapply body_step_trans;
    [| apply env_step_body;
       exact (advance_env (now s + ms)
                (emit line (EvSleep ms) (set_calls (S (calls s)) s)))].
  one_body.
Qed.

Lemma lock_locked_body line :
  (line < 167)%nat -> preserves body_step (lock_locked line).
Proof. intros H s. unfold lock_locked. run_call; one_body. Qed.

Lemma lock_release_body line :
  (line < 167)%nat -> preserves body_step (lock_release line).
Proof. intros H s. unfold lock_release. run_call; one_body. Qed.

Lemma has_any_input_body line :
  (line < 167)%nat -> preserves body_step (has_any_input line).
Proof. intros H s. unfold has_any_input. run_call; one_body. Qed.

Lemma lock_acquire_body line :
  (line < 167)%nat -> preserves body_step (lock_acquire line).
Proof.
  intros H s. unfold lock_acquire. run_call; [one_body |].
  destruct (acquire_wait (script s) _) as [s'|] eqn:W; cbn.
  - apply acquire_wait_spec in W. destruct W as [s1 [E [F Eq]]].
    apply env_step_body in E.
    apply body_step_trans with (set_calls (S (calls s)) s).
    { constructor; cbn; auto. exists []. rewrite app_nil_r. auto. }
    apply body_step_trans with s1; [exact E |].
    rewrite Eq. one_body.
  - constructor; cbn; auto. exists []. rewrite app_nil_r. auto.
Qed.

Lemma local_body {A} (f : State -> option A) : preserves body_step (local f).
Proof. intros s. rewrite local_same. apply body_step_refl. Qed.

Lemma should_keep_running_body m : preserves body_step (should_keep_running m).
Proof.
  intros s. unfold should_keep_running, bind, microsd_is_inserted.
  destruct (class_of m); cbn; try one_body.
  unfold call. destruct (faults s (calls s)); cbn; one_body.
Qed.

Lemma wait_locked_body fuel : preserves body_step (wait_locked fuel).
Proof.
  induction fuel as [| n IH]; cbn.
  - intros s. apply body_step_refl.
  - apply preserves_bind; [apply body_step_trans | apply lock_locked_body; lia |].
    intros l. destruct l; [apply preserves_ret, body_step_refl |].
    apply preserves_bind; [apply body_step_trans | apply time_sleep_body; lia |].
    intros _. exact IH.
Qed.

Lemma yield_lock_body fuel : preserves body_step (yield_lock fuel).
Proof.
  unfold yield_lock.
  apply preserves_bind; [apply body_step_trans | intros s; cbn; one_body |].
  intros _.
  apply preserves_bind; [apply body_step_trans | apply lock_release_body; lia |].
  intros _.
  apply preserves_bind; [apply body_step_trans | apply wait_locked_body |].
  intros _. apply lock_acquire_body; lia.
Qed.

Lemma first_render_body : preserves body_step first_render.
Proof.
  intros s. unfold first_render, bind, canvas_copy, toast_render, modify.
  unfold call; cbn. destruct (faults s (calls s)); cbn; [one_body |].
  destruct (faults s (S (calls s))); cbn.
  - constructor; cbn; auto.
    eexists. rewrite <- app_assoc. split; [reflexivity |].
    repeat constructor; cbn; lia.
  - constructor; cbn; auto; [| discriminate].
    eexists. rewrite <- !app_assoc. split; [reflexivity |].
    repeat constructor; cbn; lia.
Qed.

Ltac body_bind :=
  apply preserves_bind; [apply body_step_trans | | intros ?].

Lemma iteration_body fuel m : preserves body_step (iteration fuel m).
Proof.
  unfold iteration.
  body_bind; [intros s; cbn; one_body |].
  destruct a; cbn [negb]; [| apply preserves_ret, body_step_refl].
  body_bind; [apply should_keep_running_body |].
  destruct a; cbn [negb]; [| apply preserves_ret, body_step_refl].
  body_bind; [apply has_any_input_body; lia |].
  destruct a; [apply preserves_ret, body_step_refl |].
  body_bind; [apply time_time_body; lia |].
  body_bind; [intros s; cbn; one_body |].
  body_bind.
  { destruct a0; [apply yield_lock_body | apply preserves_ret, body_step_refl]. }
  body_bind; [apply local_body |].
  body_bind.
  { destruct a2; cbn [negb];
      [apply preserves_ret, body_step_refl | apply first_render_body]. }
  body_bind; [apply time_time_body; lia |].
  body_bind; [apply local_body |].
  body_bind.
  { destruct (_ >? _); [apply local_body | apply preserves_ret, body_step_refl]. }
  destruct a6; [apply preserves_ret, body_step_refl |].
  body_bind; [apply time_sleep_body; lia |].
  apply preserves_ret, body_step_refl.
Qed.

Lemma monitor_body fuel m : preserves body_step (monitor fuel m).
Proof.
  induction fuel as [| n IH]; cbn.
  - intros s. apply body_step_refl.
  - body_bind; [apply iteration_body |].
    destruct a; [exact IH | apply preserves_ret, body_step_refl].
Qed.

(** The part of the body after the first clock read. *)
Definition run_body_rest (fuel : nat) (m : Manager) (t : Z) : M unit :=
  modify (set_start (Some t)) ;;;
  modify (set_has_rendered (Some false)) ;;;
  modify (set_previous_screen_state None) ;;;
  (if activation_delay m >? 0
   then time_sleep 123 (1000 * activation_delay m) else ret tt) ;;;
  lock_acquire 128 ;;;
  monitor fuel m.

Lemma run_body_rest_body fuel m t s :
  let s' := final (run_body_rest fuel m t s) in
  body_step s s' /\ has_rendered s' <> None.
Proof.
  set (s1 := set_previous_screen_state None
               (set_has_rendered (Some false) (set_start (Some t) s))).
  assert (B1 : body_step s s1).
  { constructor; cbn; auto; [| discriminate].
    exists []. rewrite app_nil_r. auto. }
  assert (P : preserves body_step
                ((if activation_delay m >? 0
                  then time_sleep 123 (1000 * activation_delay m) else ret tt) ;;;
                 lock_acquire 128 ;;; monitor fuel m)).
  { body_bind.
    { destruct (_ >? _); [apply time_sleep_body; lia
                         | apply preserves_ret, body_step_refl]. }
    body_bind; [apply lock_acquire_body; lia | apply monitor_body]. }
  specialize (P s1).
  change (final (run_body_rest fuel m t s))
    with (final (((if activation_delay m >? 0
                   then time_sleep 123 (1000 * activation_delay m) else ret tt) ;;;
                  lock_acquire 128 ;;; monitor fuel m) s1)).
  cbn zeta. split.
  - eapply body_step_trans; eauto.
  - apply (body_bound _ _ P). cbn. discriminate.
Qed.

Lemma run_body_spec fuel m s :
  let s' := final (run_body fuel m s) in
  body_step s s' /\
  (faults s (calls s) = false -> has_rendered s' <> None).
Proof.
  unfold run_body. fold (run_body_rest fuel m).
  change (t <- time_time 119 ;; run_body_rest fuel m t)
    with (bind (time_time 119) (run_body_rest fuel m)).
  unfold bind, time_time, call.
  destruct (faults s (calls s)) eqn:F; cbv beta iota zeta.
  - split; [one_body | discriminate].
  - match goal with
    | |- context [run_body_rest fuel m ?t ?s1] =>
        destruct (run_body_rest_body fuel m t s1) as [B N]
    end.
    split; [| intros _; exact N].
    eapply body_step_trans; [| exact B]. one_body.
Qed.

(** ** The cleanup *)

(** What the [finally] block logs at time [t] when [has_rendered] is [hr],
    the lock is with [h] and the saved frame is [prev]. *)
Definition cleanup_entries (t : Z) (hr : bool) (h : holder) (prev : option frame)
  : list entry :=
  (if hr then
     mkEntry t 169 (EvLocked (is_locked h))
     :: (if is_locked h then [mkEntry t 171 (EvShowImage prev h)] else [])
   else [])
  ++ [mkEntry t 174 (EvRelease h)].

Definition restored_screen (hr : bool) (h : holder) (prev : option frame)
           (scr : frame) : frame :=
  if hr && is_locked h
  then match prev with Some f => f | None => scr end
  else scr.

Lemma cleanup_spec s hr :
  has_rendered s = Some hr ->
  faults s (calls s) = false ->
  faults s (S (calls s)) = false ->
  faults s (S (S (calls s))) = false ->
  exists s',
    cleanup s = Ret tt s' /\
    log s' = log s ++ cleanup_entries (now s) hr (lock s) (previous_screen_state s) /\
    lock s' = Free /\
    screen s' = restored_screen hr (lock s) (previous_screen_state s) (screen s) /\
    now s' = now s /\
    has_rendered s' = has_rendered s.
Proof.
  intros H F0 F1 F2.
  unfold cleanup, bind, local, lock_locked, show_image, lock_release, get, call.
  rewrite H. unfold cleanup_entries, restored_screen.
  destruct hr; cbn.
  - rewrite F0. cbn. destruct (lock s) eqn:L; cbn.
    + rewrite F1. cbn. eexists. repeat split; cbn; rewrite ?L; auto.
      rewrite <- app_assoc. reflexivity.
    + rewrite F1. cbn.
      destruct (previous_screen_state s) eqn:P; cbn; rewrite F2; cbn;
        (eexists; repeat split; cbn; rewrite ?L; auto;
         rewrite <- !app_assoc; reflexivity).
    + rewrite F1. cbn.
      destruct (previous_screen_state s) eqn:P; cbn; rewrite F2; cbn;
        (eexists; repeat split; cbn; rewrite ?L; auto;
         rewrite <- !app_assoc; reflexivity).
  - rewrite F0. cbn. eexists. repeat split; cbn; auto.
Qed.

(** C8.  The guard of the restoration asks only whether the lock is locked.
    When the cleanup starts with [has_rendered] true and no call of it
    raises: if any thread holds the lock -- the toast thread or another
    one -- the saved frame is shown and then the lock is released; if the
    lock is free nothing is shown. *)
Theorem C8_restore_guard_is_locked_by_anyone :
  forall s,
    has_rendered s = Some true ->
    faults s (calls s) = false ->
    faults s (S (calls s)) = false ->
    faults s (S (S (calls s))) = false ->
    exists s',
      cleanup s = Ret tt s' /\
      ((lock s = Me \/ lock s = Other) ->
       log s' = log s ++ [mkEntry (now s) 169 (EvLocked true);
                          mkEntry (now s) 171
                                  (EvShowImage (previous_screen_state s) (lock s));
                          mkEntry (now s) 174 (EvRelease (lock s))] /\
       forall f, previous_screen_state s = Some f -> screen s' = f) /\
      (lock s = Free ->
       log s' = log s ++ [mkEntry (now s) 169 (EvLocked false);
                          mkEntry (now s) 174 (EvRelease Free)] /\
       screen s' = screen s).
Proof.
  intros s H F0 F1 F2.
  destruct (cleanup_spec s true H F0 F1 F2) as [s' [C [L [K [Sc N]]]]].
  exists s'. split; [exact C |]. split.
  - intros Hl. unfold cleanup_entries in L. unfold restored_screen in Sc.
    destruct Hl as [Hl | Hl]; rewrite Hl in *; cbn in *; (split; [exact L |]);
      intros f P; rewrite P in Sc; exact Sc.
  - intros Hl. unfold cleanup_entries in L. unfold restored_screen in Sc.
    rewrite Hl in *. cbn in *. auto.
Qed.

(** Two managers used in the examples. *)
Definition state_change_manager (delay dur : Z) : Manager :=
  mkManager ClsSDCardStateChange delay dur (Some "SD card removed"%string)
    (mkToast (Some "sd"%string) "orange" (Some "SD card removed"%string) 40 19 2).

Definition remove_sdcard_manager : Manager :=
  mkManager ClsRemoveSDCard 3 1000000 None
    (mkToast (Some "sd"%string) "orange"
       (Some ("Security tip:" ++ newline ++ "Remove SD card")%string) 50 20 2).

(** A yield is requested after the paint, another thread takes the lock,
    and the reacquire at line 151 raises: the body is left with
    [has_rendered] true and the lock with the other thread. *)
Definition yield_then_fault : State :=
  initial Free true (Screen 0) [(50, RequestYield); (150, OtherAcquire)]
          (fault_at 14).

Lemma C8_witness :
  exists s',
    cleanup (final (run_body 10 (state_change_manager 0 3) yield_then_fault))
    = Ret tt s' /\
    In (mkEntry 200 171 (EvShowImage (Some (Screen 0)) Other)) (log s') /\
    screen s' = Screen 0.
Proof.
  destruct (C8_restore_guard_is_locked_by_anyone
              (final (run_body 10 (state_change_manager 0 3) yield_then_fault)))
    as [s' [C [[L Sc] _]]]; try reflexivity.
  - right. reflexivity.
  - exists s'. split; [exact C |]. split.
    + rewrite L. apply in_or_app. right. right. left. reflexivity.
    + apply Sc. reflexivity.
Defined.

(** How the body of [try] is left: by returning, or by raising [e]. *)
Definition exit_with (raised : option exn) (s : State) : outcome unit :=
  match raised with
  | None => Ret tt s
  | Some e => Raise e s
  end.

(** C2, as the code has it.  On every way out of the body of [try] -- a
    return or an exception -- taken after the first clock read has
    returned (so that [has_rendered] is bound), and when no call of the
    cleanup raises: the cleanup runs once, after the body, which itself
    logs nothing at the lines of the cleanup; if [has_rendered] is true it
    asks whether the lock is locked, by whichever thread, and if so shows
    the saved frame; then it calls [release], whether or not the toast
    thread holds the lock; and the exception of the body, if any, goes
    on. *)
Theorem C2_cleanup_on_every_exit :
  forall fuel m s0 s1 raised,
    run_body fuel m s0 = exit_with raised s1 ->
    faults s0 (calls s0) = false ->
    faults s1 (calls s1) = false ->
    faults s1 (S (calls s1)) = false ->
    faults s1 (S (S (calls s1))) = false ->
    exists hr s2 body,
      has_rendered s1 = Some hr /\
      run fuel m s0 = exit_with raised s2 /\
      log s1 = log s0 ++ body /\
      Forall (fun x => (at_line x < 167)%nat) body /\
      log s2 = log s1 ++ cleanup_entries (now s1) hr (lock s1)
                                         (previous_screen_state s1) /\
      lock s2 = Free /\
      screen s2 = restored_screen hr (lock s1) (previous_screen_state s1) (screen s1).
Proof.
  intros fuel m s0 s1 raised B F F0 F1 F2.
  destruct (run_body_spec fuel m s0) as [[[body [L Fa]] _ _ _] N].
  rewrite B in L, N.
  assert (E1 : final (exit_with raised s1) = s1) by (destruct raised; reflexivity).
  rewrite E1 in L, N. specialize (N F).
  destruct (has_rendered s1) as [hr |] eqn:H; [| congruence].
  destruct (cleanup_spec s1 hr H F0 F1 F2) as [s2 [C [L2 [K [Sc _]]]]].
  exists hr, s2, body. repeat split; auto.
  unfold run, try_finally. rewrite B.
  destruct raised; cbn; rewrite C; reflexivity.
Qed.

Ltac in_list := cbn; repeat (first [left; reflexivity | right]).

Lemma C2_witness :
  exists s2,
    run 10 (state_change_manager 0 3) yield_then_fault
    = Raise (Fault OpAcquire) s2 /\ lock s2 = Free /\ screen s2 = Screen 0.
Proof.
  destruct (C2_cleanup_on_every_exit 10 (state_change_manager 0 3)
              yield_then_fault
              (final (run_body 10 (state_change_manager 0 3) yield_then_fault))
              (Some (Fault OpAcquire)))
    as [hr [s2 [body [H [R [_ [_ [_ [K Sc]]]]]]]]];
    try (vm_compute; reflexivity).
  exists s2. split; [exact R |]. split; [exact K |].
  rewrite Sc. vm_compute in H. inversion H. vm_compute. reflexivity.
Defined.

(** C2, as the claim states it, fails.  In [yield_then_fault] the cleanup
    shows the saved frame and calls [release] while another thread holds
    the lock; when the activation sleep raises, it calls [release] on a
    lock nobody holds. *)
Lemma C2_counterexample :
  let s := final (run 10 (state_change_manager 0 3) yield_then_fault) in
  let s' := final (run 10 (state_change_manager 2 3)
                       (initial Free true (Screen 0) [] (fault_at 1))) in
  In (mkEntry 200 171 (EvShowImage (Some (Screen 0)) Other)) (log s) /\
  In (mkEntry 200 174 (EvRelease Other)) (log s) /\
  log s' = [mkEntry 0 119 (EvTime 0); mkEntry 0 123 (EvFault OpSleep);
            mkEntry 0 174 (EvRelease Free)].
Proof.
  vm_compute. repeat split; in_list.
Qed.

(** C9: where the code leaves the cleanup undone.  When the first clock
    read raises, [has_rendered] is still unbound, the [finally] block
    raises on reading it and [release] is never called.  When the redraw of
    the saved frame raises, line 174 is not reached either and the lock
    stays with the toast thread. *)
Theorem C9_release_skipped :
  (forall fuel m h ins scr sc,
      exists s',
        run fuel m (initial h ins scr sc (fault_at 0)) = Raise UnboundLocalError s' /\
        log s' = [mkEntry 0 119 (EvFault OpTime)] /\
        lock s' = h) /\
  (exists s',
      run 10 (state_change_manager 0 0)
          (initial Free true (Screen 0) [] (fault_at 12))
      = Raise (Fault OpShowImage) s' /\
      lock s' = Me /\
      (forall x, In x (log s') -> at_line x <> 174%nat) /\
      In (mkEntry 100 171 (EvFault OpShowImage)) (log s')).
Proof.
  split.
  - intros fuel m h ins scr sc. eexists. split; [reflexivity |]. split; reflexivity.
  - eexists. split; [vm_compute; reflexivity |]. split; [reflexivity |]. split.
    + cbn [log]. intros x I.
      repeat (destruct I as [I | I]; [subst x; cbn; discriminate |]).
      destruct I.
    + in_list.
Qed.

(** ** A stop requested during the activation delay *)

Definition is_paint (x : entry) : bool :=
  match what x with
  | EvRender _ | EvCapture _ _ => true
  | _ => false
  end.

(** C1, as the claim states it, fails.  With [activation_delay=2],
    [duration=3] and [keep_running] set to false at t=1: the sleep of the
    delay is not cut short, the lock is taken at t=2, the condition of the
    [while] is false at once, nothing is captured or painted, nothing is
    restored, and the lock is released at t=2. *)
Lemma C1_counterexample :
  let s := final (run 10 (state_change_manager 2 3)
                      (initial Free true (Screen 0) [(1000, RequestStop)] no_faults)) in
  log s = [mkEntry 0 119 (EvTime 0);
           mkEntry 0 123 (EvSleep 2000);
           mkEntry 1000 0 (EvEnv RequestStop);
           mkEntry 2000 128 EvAcquire;
           mkEntry 2000 130 (EvKeepRunning false);
           mkEntry 2000 174 (EvRelease Me)] /\
  existsb is_paint (log s) = false /\
  screen s = Screen 0.
Proof. vm_compute. repeat split. Qed.

(** C1, as the code has it.  Whatever the class, the delay, the duration
    and the screen: when the stop is requested at a time [t_stop] before
    the end of a positive activation delay, the lock being free and no call
    raising, the run sleeps the whole delay, takes the lock, finds
    [keep_running] false at the first test of the loop, paints nothing,
    restores nothing, releases the lock and returns at the end of the
    delay. *)
Theorem C1_stop_during_delay :
  forall fuel m t_stop ins scr,
    0 < activation_delay m ->
    t_stop <= 1000 * activation_delay m ->
    exists s',
      run (S fuel) m (initial Free ins scr [(t_stop, RequestStop)] no_faults)
      = Ret tt s' /\
      log s' = [mkEntry 0 119 (EvTime 0);
                mkEntry 0 123 (EvSleep (1000 * activation_delay m));
                mkEntry t_stop 0 (EvEnv RequestStop);
                mkEntry (0 + 1000 * activation_delay m) 128 EvAcquire;
                mkEntry (0 + 1000 * activation_delay m) 130 (EvKeepRunning false);
                mkEntry (0 + 1000 * activation_delay m) 174 (EvRelease Me)] /\
      existsb is_paint (log s') = false /\
      has_rendered s' = Some false /\
      screen s' = scr /\
      lock s' = Free.
Proof.
  intros fuel m t_stop ins scr Hd Ht.
  assert (G : (activation_delay m >? 0) = true) by (apply Z.gtb_lt; lia).
  assert (L : (t_stop <=? 0 + 1000 * activation_delay m) = true)
    by (apply Z.leb_le; lia).
  exec. rewrite G. exec. rewrite L. exec.
  eexists. split; [reflexivity |]. repeat split.
Qed.

Lemma C1_witness :
  exists s',
    run 1 remove_sdcard_manager
        (initial Free true (Screen 7) [(2500, RequestStop)] no_faults)
    = Ret tt s' /\
    existsb is_paint (log s') = false /\ screen s' = Screen 7.
Proof.
  destruct (C1_stop_during_delay 0 remove_sdcard_manager 2500 true (Screen 7))
    as [s' [R [_ [P [_ [Sc _]]]]]]; [reflexivity | cbv; discriminate |].
  exists s'. split; [exact R |]. split; [exact P | exact Sc].
Defined.

(** ** Self-termination on the duration *)

(** What the other threads may do in a run on which no stop, no input and
    no yield occurs, and on which the lock and the SD card are left
    alone. *)
Definition calm_action (a : env_action) : bool :=
  match a with
  | ReleaseInput | SetInserted true | OtherRelease | OtherDraw _ => true
  | RequestStop | RequestYield | PressInput | SetInserted false
  | OtherAcquire => false
  end.

Definition calm (sc : list (Z * env_action)) : Prop :=
  Forall (fun p => calm_action (snd p) = true) sc.

(** The toast thread between two polls: running, nothing requested, no
    input, the card in, the oracle silent, the script calm; the lock is
    with [h], [has_rendered] is [hr], the saved frame [prev], the screen
    [scr], the clock [t], the start of the run [st]. *)
Record polling (c : cls) (h : holder) (st : option Z) (hr : option bool)
       (prev : option frame) (scr : frame) (t : Z) (s : State) : Prop := {
  pol_keep : keep_running s = true;
  pol_toggle : toggle_flag s = false;
  pol_input : input s = false;
  pol_inserted : c = ClsRemoveSDCard -> inserted s = true;
  pol_lock : lock s = h;
  pol_faults : faults s = no_faults;
  pol_calm : calm (script s);
  pol_rendered : has_rendered s = hr;
  pol_prev : previous_screen_state s = prev;
  pol_start : start s = st;
  pol_screen : screen s = scr;
  pol_now : now s = t
}.

Lemma calm_apply c h st hr prev scr t ta a s :
  h <> Other -> calm_action a = true ->
  polling c h st hr prev scr t s ->
  polling c h st hr prev scr t (apply_action ta a s).
Proof.
  intros Hh Ca [K T I N L F C R P S Sc W].
  destruct a as [| | | | [|] | | |]; try discriminate; cbn;
    try (rewrite L; destruct h; try congruence);
    constructor; cbn; auto.
Qed.

Lemma calm_deliver c h st hr prev scr t u p : forall s,
  h <> Other -> calm p ->
  polling c h st hr prev scr t s ->
  polling c h st hr prev scr t (deliver u p s) /\
  exists l, log (deliver u p s) = log s ++ l.
Proof.
  induction p as [| [ta a] rest IH]; intros s Hh Cp P.
  - cbn. split; [| exists []; rewrite app_nil_r; reflexivity].
    destruct P. constructor; cbn; auto.
  - inversion Cp as [| x r Ca Cr]; subst. cbn in Ca. cbn [deliver].
    destruct (ta <=? u).
    + destruct (IH (apply_action ta a s) Hh Cr) as [P' [l L]].
      { apply calm_apply; auto. }
      split; [exact P' |].
      destruct (apply_action_env ta a s) as [[l0 [L0 _]] _ _ _ _ _ _ _].
      exists (l0 ++ l). rewrite L, L0, app_assoc. reflexivity.
    + split; [| exists []; rewrite app_nil_r; reflexivity].
      destruct P. constructor; cbn; auto.
Qed.

Lemma calm_advance c h st hr prev scr t u s :
  h <> Other -> polling c h st hr prev scr t s ->
  polling c h st hr prev scr u (advance u s) /\
  exists l, log (advance u s) = log s ++ l.
Proof.
  intros Hh P. unfold advance.
  destruct (calm_deliver c h st hr prev scr t u (script s) s Hh (pol_calm _ _ _ _ _ _ _ _ P) P)
    as [[K T I N L F C R Pv S Sc W] [l Ll]].
  split; [constructor; cbn; auto | exists l; exact Ll].
Qed.

Lemma acquire_wait_free p s :
  lock s = Free -> acquire_wait p s = Some (set_script p (set_lock Me s)).
Proof. intros L. destruct p as [| [ta a] r]; cbn; rewrite L; reflexivity. Qed.

(** Symbolic execution that leaves the script and the log alone. *)
Ltac exec_open :=
  cbv beta iota zeta delta
    [run try_finally run_body cleanup bind ret out_of_fuel get modify
     local call time_time time_sleep lock_acquire lock_release lock_locked
     has_any_input microsd_is_inserted canvas_copy toast_render show_image
     should_keep_running read_keep_running read_toggle clear_toggle
     yield_lock first_render iteration toggle_renderer_lock
     emit emit_at initial no_faults is_locked negb andb
     set_now set_lock set_keep_running set_toggle_flag set_input set_inserted
     set_screen set_script set_calls set_log set_start set_has_rendered
     set_previous_screen_state
     now lock keep_running toggle_flag input inserted screen script calls
     faults log start has_rendered previous_screen_state].

Ltac log_grows :=
  eexists; split;
  [ cbn [log]; rewrite <- ?app_assoc; reflexivity
  | first [ intros; discriminate
          | intros _; cbn [app];
            repeat (first [left; reflexivity | right]) ] ].

Ltac pol_field :=
  first [ reflexivity | assumption
        | intros; first [reflexivity | assumption | congruence] ].

(** One pass of the loop in a calm world: it paints if that was not done
    yet, and leaves the loop exactly when the clock is more than
    [activation_delay + duration] after the start; else it sleeps 100 ms
    and goes on. *)
Lemma iteration_calm fuel m st hr prev scr t s :
  polling (class_of m) Me (Some st) (Some hr) prev scr t s ->
  exists s',
    iteration fuel m s
    = Ret (negb (t - st >? 1000 * (activation_delay m + duration m))) s' /\
    polling (class_of m) Me (Some st) (Some true)
            (if hr then prev else Some scr)
            (if hr then scr else ToastOver scr)
            (if t - st >? 1000 * (activation_delay m + duration m)
             then t else t + 100) s' /\
    exists l, log s' = log s ++ l /\
              (hr = false -> In (mkEntry t 157 (EvRender Me)) l).
Proof.
  intros P.
  destruct s as [n0 l0 k0 tg0 i0 ins0 sc0 scr0 c0 f0 lg0 st0 hr0 pv0].
  destruct P as [K T I N L F C R Pv S Sc W]. cbn in *. subst.
  destruct (t - st >? 1000 * (activation_delay m + duration m)) eqn:E;
    destruct (class_of m) eqn:Cl;
    try (assert (Hi : ins0 = true) by (apply N; reflexivity); subst ins0);
    destruct hr;
    (eexists; split;
     [ unfold iteration, should_keep_running; rewrite Cl; exec_open;
       rewrite E; cbv beta iota; reflexivity
     | ]);
    try (split; [constructor; pol_field | log_grows]; fail);
    match goal with
    | |- polling ?c _ _ _ _ _ _ (advance ?u ?s1) /\ _ =>
        destruct (calm_advance c Me (Some st) (Some true)
                    (previous_screen_state s1) (screen s1) t u s1)
          as [P' [l' L']];
        [ discriminate
        | constructor; pol_field
        | split; [exact P' |]; rewrite L'; log_grows ]
    end.
Qed.

Lemma bind_ret_eq {A B} (m : M A) (k : A -> M B) s a s1 :
  m s = Ret a s1 -> bind m k s = k a s1.
Proof. intros H. unfold bind. rewrite H. reflexivity. Qed.

(** The loop in a calm world, once the toast is painted: it returns at the
    first poll at which the clock is more than [activation_delay +
    duration] after the start, [k] polls of 100 ms later. *)
Lemma monitor_calm m st prev scr : forall n fuel t s,
  polling (class_of m) Me (Some st) (Some true) prev scr t s ->
  1000 * (activation_delay m + duration m) - (t - st) < 100 * Z.of_nat n ->
  (n < fuel)%nat ->
  exists s' k,
    monitor fuel m s = Ret tt s' /\
    polling (class_of m) Me (Some st) (Some true) prev scr (t + 100 * k) s' /\
    0 <= k /\
    t + 100 * k - st > 1000 * (activation_delay m + duration m) /\
    (k = 0 \/ t + 100 * (k - 1) - st <= 1000 * (activation_delay m + duration m)) /\
    exists l, log s' = log s ++ l.
Proof.
  induction n as [| n IH]; intros fuel t s P Hn Hf;
    (destruct fuel as [| f]; [lia |]);
    destruct (iteration_calm f m st true prev scr t s P) as [s1 [It [P1 [l1 [L1 _]]]]];
    cbn [monitor]; rewrite (bind_ret_eq _ _ _ _ _ It);
    destruct (Z.gtb_spec (t - st) (1000 * (activation_delay m + duration m)))
      as [Hover | Hnot]; cbn [negb].
  - exists s1, 0. replace (t + 100 * 0) with t by lia.
    split; [reflexivity |]. split; [exact P1 |].
    split; [lia |]. split; [lia |]. split; [left; reflexivity |].
    exists l1. exact L1.
  - lia.
  - exists s1, 0. replace (t + 100 * 0) with t by lia.
    split; [reflexivity |]. split; [exact P1 |].
    split; [lia |]. split; [lia |]. split; [left; reflexivity |].
    exists l1. exact L1.
  - destruct (IH f (t + 100) s1 P1) as [s' [k [Mo [P' [K0 [Ko [Kp [l' L']]]]]]]];
      [lia | lia |].
    exists s', (k + 1). replace (t + 100 * (k + 1)) with (t + 100 + 100 * k) by lia.
    split; [exact Mo |]. split; [exact P' |].
    split; [lia |]. split; [lia |]. split; [right; destruct Kp; lia |].
    exists (l1 ++ l'). rewrite L', L1, app_assoc. reflexivity.
Qed.

Lemma lock_acquire_free line c st hr prev scr t s :
  polling c Free st hr prev scr t s ->
  exists s',
    lock_acquire line s = Ret tt s' /\
    polling c Me st hr prev scr t s' /\
    log s' = log s ++ [mkEntry t line EvAcquire].
Proof.
  intros [K T I N L F C R Pv S Sc W].
  unfold lock_acquire, call. rewrite F. cbv beta iota delta [no_faults].
  rewrite acquire_wait_free by exact L.
  eexists. split; [reflexivity |]. split.
  - constructor; cbn; auto.
  - cbn. rewrite W. reflexivity.
Qed.

Lemma time_sleep_calm line ms c h st hr prev scr t s :
  h <> Other -> polling c h st hr prev scr t s ->
  exists s',
    time_sleep line ms s = Ret tt s' /\
    polling c h st hr prev scr (t + ms) s' /\
    exists l, log s' = log s ++ l.
Proof.
  intros Hh P. unfold time_sleep, call.
  rewrite (pol_faults _ _ _ _ _ _ _ _ P). cbv beta iota delta [no_faults].
  set (s1 := emit line (EvSleep ms) (set_calls (S (calls s)) s)).
  assert (P1 : polling c h st hr prev scr t s1).
  { destruct P. constructor; cbn; auto. }
  destruct (calm_advance c h st hr prev scr t (now s1 + ms) s1 Hh P1) as [P' [l L]].
  exists (advance (now s1 + ms) s1). split; [reflexivity |].
  split.
  { pattern t at 1. rewrite <- (pol_now _ _ _ _ _ _ _ _ P1). exact P'. }
  exists ([mkEntry (now s) line (EvSleep ms)] ++ l). rewrite L. cbn [log s1].
  subst s1. cbn. rewrite <- app_assoc. reflexivity.
Qed.

(** The body of [try] in a calm world with a free lock. *)
Lemma run_body_calm fuel m ins scr sc :
  0 <= activation_delay m -> 0 <= duration m -> calm sc ->
  (class_of m = ClsRemoveSDCard -> ins = true) ->
  (Z.to_nat (10 * duration m) + 2 <= fuel)%nat ->
  exists s',
    run_body fuel m (initial Free ins scr sc no_faults) = Ret tt s' /\
    polling (class_of m) Me (Some 0) (Some true) (Some scr) (ToastOver scr)
            (1000 * (activation_delay m + duration m) + 100) s' /\
    In (mkEntry (1000 * activation_delay m) 157 (EvRender Me)) (log s').
Proof.
  intros HD Hd Hc Hins Hf.
  set (s0 := initial Free ins scr sc no_faults).
  set (s0b := set_previous_screen_state None
                (set_has_rendered (Some false)
                   (set_start (Some 0)
                      (emit 119 (EvTime 0) (set_calls 1 s0))))).
  assert (P0 : polling (class_of m) Free (Some 0) (Some false) None scr 0 s0b)
    by (constructor; cbn; auto).
  assert (E0 : run_body fuel m s0
               = ((if activation_delay m >? 0
                   then time_sleep 123 (1000 * activation_delay m) else ret tt) ;;;
                  lock_acquire 128 ;;; monitor fuel m) s0b) by reflexivity.
  assert (S1 : exists s1,
             (if activation_delay m >? 0
              then time_sleep 123 (1000 * activation_delay m) else ret tt) s0b
             = Ret tt s1 /\
             polling (class_of m) Free (Some 0) (Some false) None scr
                     (1000 * activation_delay m) s1).
  { destruct (Z.gtb_spec (activation_delay m) 0) as [G | G].
    - destruct (time_sleep_calm 123 (1000 * activation_delay m) (class_of m) Free (Some 0)
                  (Some false) None scr 0 s0b) as [s1 [Sl [P1 _]]];
        [discriminate | exact P0 |].
      exists s1. split; [exact Sl |]. exact P1.
    - exists s0b. split; [reflexivity |].
      replace (1000 * activation_delay m) with 0 by lia. exact P0. }
  destruct S1 as [s1 [Sl P1]].
  destruct (lock_acquire_free 128 _ _ _ _ _ _ s1 P1) as [s2 [Ac [P2 _]]].
  destruct fuel as [| f]; [lia |].
  destruct (iteration_calm f m 0 false None scr (1000 * activation_delay m) s2 P2)
    as [s3 [It [P3 [l3 [L3 R3]]]]].
  assert (Hno : (1000 * activation_delay m - 0
                 >? 1000 * (activation_delay m + duration m)) = false).
  { destruct (Z.gtb_spec (1000 * activation_delay m - 0)
                (1000 * (activation_delay m + duration m))); [lia | reflexivity]. }
  rewrite Hno in It, P3. cbn [negb] in It.
  destruct (monitor_calm m 0 (Some scr) (ToastOver scr)
              (Z.to_nat (10 * duration m)) f
              (1000 * activation_delay m + 100) s3 P3)
    as [s4 [k [Mo [P4 [K0 [Ko [Kp [l4 L4]]]]]]]];
    [rewrite Z2Nat.id by lia; lia | lia |].
  exists s4. split; [| split].
  - rewrite E0.
    rewrite (bind_ret_eq _ _ _ _ _ Sl).
    rewrite (bind_ret_eq _ _ _ _ _ Ac).
    cbn [monitor]. rewrite (bind_ret_eq _ _ _ _ _ It). exact Mo.
  - replace (1000 * (activation_delay m + duration m) + 100)
      with (1000 * activation_delay m + 100 + 100 * k) by lia.
    exact P4.
  - rewrite L4, L3. apply in_or_app. left. apply in_or_app. right.
    apply R3. reflexivity.
Qed.

(** C5.  In a calm world -- no stop, no input, no yield, no call raising,
    the lock free and left alone, the card in if the class asks for it --
    a run with non-negative
    delay and duration, given fuel for all its polls: paints the toast at
    the end of the delay; returns at the first poll at which the clock is
    more than [activation_delay + duration] after the start, that is 100 ms
    after that time; has then restored the frame that was on the screen and
    released the lock.  And each pass of the loop, from a polling state,
    leaves the loop exactly when the elapsed time is greater than
    [activation_delay + duration], [has_rendered] being true by then. *)
Theorem C5_self_termination :
  forall fuel m ins scr sc,
    0 <= activation_delay m -> 0 <= duration m -> calm sc ->
    (class_of m = ClsRemoveSDCard -> ins = true) ->
    (Z.to_nat (10 * duration m) + 2 <= fuel)%nat ->
    (exists s',
        run fuel m (initial Free ins scr sc no_faults) = Ret tt s' /\
        now s' = 1000 * (activation_delay m + duration m) + 100 /\
        screen s' = scr /\ lock s' = Free /\ has_rendered s' = Some true /\
        exists pre,
          log s' = pre ++ [mkEntry (now s') 169 (EvLocked true);
                           mkEntry (now s') 171 (EvShowImage (Some scr) Me);
                           mkEntry (now s') 174 (EvRelease Me)] /\
          In (mkEntry (1000 * activation_delay m) 157 (EvRender Me)) pre) /\
    (forall f st hr prev scr' t s,
        polling (class_of m) Me (Some st) (Some hr) prev scr' t s ->
        exists s1,
          iteration f m s
          = Ret (negb (t - st >? 1000 * (activation_delay m + duration m))) s1 /\
          has_rendered s1 = Some true).
Proof.
  intros fuel m ins scr sc HD Hd Hc Hins Hf. split.
  - destruct (run_body_calm fuel m ins scr sc HD Hd Hc Hins Hf) as [s4 [B [P4 I4]]].
    destruct P4 as [K T I N L F C R Pv S Sc W].
    destruct (cleanup_spec s4 true R) as [s5 [Cl [L5 [K5 [Sc5 [N5 H5]]]]]];
      try (rewrite F; reflexivity).
    exists s5. split.
    { unfold run, try_finally. rewrite B, Cl. reflexivity. }
    split; [rewrite N5; exact W |].
    split; [rewrite Sc5, L, Pv; reflexivity |].
    split; [exact K5 |].
    split; [rewrite H5; exact R |].
    exists (log s4). split; [| exact I4].
    rewrite L5, N5, L, Pv. reflexivity.
  - intros f st hr prev scr' t s P.
    destruct (iteration_calm f m st hr prev scr' t s P) as [s1 [It [P1 _]]].
    exists s1. split; [exact It | exact (pol_rendered _ _ _ _ _ _ _ _ P1)].
Qed.

Lemma C5_witness :
  exists s',
    run 12 (state_change_manager 0 1) (initial Free false (Screen 3) [] no_faults)
    = Ret tt s' /\ now s' = 1100 /\ screen s' = Screen 3 /\ lock s' = Free.
Proof.
  destruct (C5_self_termination 12 (state_change_manager 0 1) false (Screen 3) [])
    as [[s' [R [N [Sc [L _]]]]] _];
    [cbv; discriminate | cbv; discriminate | constructor | discriminate
    | cbv; lia |].
  exists s'. split; [exact R |]. split; [exact N |]. split; [exact Sc | exact L].
Defined.

(** ** The yield handshake *)

(** All of a state but the call counter, the oracle being silent. *)
Record shape (t : Z) (h : holder) (kr tg i ins : bool) (scr : frame)
       (sc : list (Z * env_action)) (lg : list entry)
       (st : option Z) (hr : option bool) (pv : option frame) (s : State)
  : Prop := {
  sh_now : now s = t;
  sh_lock : lock s = h;
  sh_keep : keep_running s = kr;
  sh_toggle : toggle_flag s = tg;
  sh_input : input s = i;
  sh_inserted : inserted s = ins;
  sh_screen : screen s = scr;
  sh_script : script s = sc;
  sh_faults : faults s = no_faults;
  sh_log : log s = lg;
  sh_start : start s = st;
  sh_rendered : has_rendered s = hr;
  sh_prev : previous_screen_state s = pv
}.

(** [n] polls that find the lock free, each followed by a sleep. *)
Fixpoint polls (t : Z) (n : nat) : list entry :=
  match n with
  | O => []
  | S n' =>
      mkEntry t 145 (EvLocked false) :: mkEntry t 147 (EvSleep 100)
      :: polls (t + 100) n'
  end.

Ltac open_state s H :=
  destruct s; destruct H;
  cbn [now lock keep_running toggle_flag input inserted screen script calls
       faults log start has_rendered previous_screen_state] in *;
  subst.

Ltac step_with tac :=
  etransitivity; [apply bind_ret_eq; tac |]; cbv beta iota.

(** The wait for another thread to take the lock: when that thread takes
    it at [t1], during the [n]-th sleep, and keeps it until [t2], after the
    end of that sleep, the wait makes [n] polls that find the lock free and
    a last one that finds it taken. *)
Lemma wait_locked_taken t1 t2 rest kr tg i ins scr st hr pv :
  forall n fuel t lg s,
    shape t Free kr tg i ins scr ((t1, OtherAcquire) :: (t2, OtherRelease) :: rest)
          lg st hr pv s ->
    t + 100 * Z.of_nat n < t1 <= t + 100 * (Z.of_nat n + 1) ->
    t + 100 * (Z.of_nat n + 1) < t2 ->
    (S n < fuel)%nat ->
    exists s',
      wait_locked fuel s = Ret tt s' /\
      shape (t + 100 * (Z.of_nat n + 1)) Other kr tg i ins scr
            ((t2, OtherRelease) :: rest)
            (lg ++ polls t (S n)
                ++ [mkEntry t1 0 (EvEnv OtherAcquire);
                    mkEntry (t + 100 * (Z.of_nat n + 1)) 145 (EvLocked true)])
            st hr pv s'.
Proof.
  induction n as [| n IH]; intros fuel t lg s Sh H1 H2 Hf.
  - destruct fuel as [| [| f]]; try lia.
    open_state s Sh. cbn [wait_locked].
    assert (L1 : (t1 <=? t + 100) = true) by (apply Z.leb_le; lia).
    assert (L2 : (t2 <=? t + 100) = false) by (apply Z.leb_gt; lia).
    eexists. split.
    + step_with ltac:(exec_open; reflexivity).
      step_with ltac:(exec_open; unfold advance; cbn [script deliver];
                      rewrite L1; cbn [apply_action lock deliver]; rewrite L2;
                      reflexivity).
      step_with ltac:(exec_open; reflexivity).
      reflexivity.
    + replace (t + 100 * (Z.of_nat 0 + 1)) with (t + 100) by lia.
      constructor; try reflexivity.
      cbn [log polls]. rewrite <- !app_assoc. reflexivity.
  - destruct fuel as [| f]; try lia.
    open_state s Sh. cbn [wait_locked].
    assert (L1 : (t1 <=? t + 100) = false) by (apply Z.leb_gt; lia).
    match goal with
    | |- context [mkState ?a ?b ?c ?d ?e ?g ?h ?sc ?ca ?fa ?lo ?sa ?ha ?pa] =>
        destruct (IH f (t + 100)
                     (lo ++ [mkEntry t 145 (EvLocked false);
                             mkEntry t 147 (EvSleep 100)])
                     (mkState (t + 100) b c d e g h sc (S (S ca)) fa
                        (lo ++ [mkEntry t 145 (EvLocked false);
                                mkEntry t 147 (EvSleep 100)]) sa ha pa))
          as [s' [W Sh']]; [constructor; reflexivity | lia | lia | lia |]
    end.
    exists s'. split.
    + step_with ltac:(exec_open; reflexivity).
      step_with ltac:(exec_open; unfold advance; cbn [script deliver];
                      rewrite L1; cbn [set_script set_now now lock keep_running
                        toggle_flag input inserted screen script calls faults
                        log start has_rendered previous_screen_state];
                      rewrite <- app_assoc; reflexivity).
      exact W.
    + replace (t + 100 * (Z.of_nat (S n) + 1))
        with (t + 100 + 100 * (Z.of_nat n + 1)) by lia.
      destruct Sh'. constructor; auto.
      rewrite sh_log0. cbn [polls]. rewrite <- !app_assoc. reflexivity.
Qed.

(** [returns r Q]: the outcome [r] is a return, in [Q]. *)
Definition returns {A} (r : outcome A) (Q : A -> State -> Prop) : Prop :=
  match r with
  | Ret a s => Q a s
  | _ => False
  end.

Lemma returns_bind {A B} (m : M A) (k : A -> M B) s a s1 Q :
  m s = Ret a s1 -> returns (k a s1) Q -> returns (bind m k s) Q.
Proof. intros H R. unfold bind. rewrite H. exact R. Qed.

Lemma returns_ex {A} (r : outcome A) Q :
  returns r Q -> exists a s', r = Ret a s' /\ Q a s'.
Proof. destruct r; cbn; try tauto. eauto. Qed.

Ltac ret_step :=
  eapply returns_bind; [exec_open; reflexivity |];
  cbv beta iota delta [negb].

(** The handshake of [yield_lock], from a state in which the toast thread
    holds the lock and the flag is set: the flag is cleared, the lock
    released, the lock polled every 100 ms until it is seen taken, then
    reacquired when the other thread releases it. *)
Lemma yield_lock_handshake t1 t2 rest kr i ins scr st hr pv n f t lg s :
  shape t Me kr true i ins scr ((t1, OtherAcquire) :: (t2, OtherRelease) :: rest)
        lg st hr pv s ->
  t + 100 * Z.of_nat n < t1 <= t + 100 * (Z.of_nat n + 1) ->
  t + 100 * (Z.of_nat n + 1) < t2 ->
  (S n < f)%nat ->
  returns (yield_lock f s)
    (fun _ s' =>
       shape t2 Me kr false i ins scr rest
             (lg ++ [mkEntry t 141 EvClearToggle; mkEntry t 142 (EvRelease Me)]
                 ++ polls t (S n)
                 ++ [mkEntry t1 0 (EvEnv OtherAcquire);
                     mkEntry (t + 100 * (Z.of_nat n + 1)) 145 (EvLocked true);
                     mkEntry t2 0 (EvEnv OtherRelease);
                     mkEntry t2 151 EvAcquire])
             st hr pv s').
Proof.
  intros Sh H1 H2 Hf. open_state s Sh. unfold yield_lock.
  ret_step. ret_step.
  match goal with
  | |- returns (bind (wait_locked f) _ ?S1) _ =>
      edestruct (wait_locked_taken t1 t2 rest kr false i ins scr st hr pv n f t
                   (log S1) S1) as [s2 [W Sh2]];
      [constructor; reflexivity | exact H1 | exact H2 | exact Hf |]
  end.
  eapply returns_bind; [exact W |]. clear W.
  open_state s2 Sh2.
  unfold lock_acquire, call. cbv beta iota zeta delta [faults calls no_faults].
  cbn [script acquire_wait lock set_now set_calls apply_action now
       keep_running toggle_flag input inserted screen calls faults log start
       has_rendered previous_screen_state emit_at set_lock set_log].
  rewrite acquire_wait_free by reflexivity.
  unfold returns.
  replace (Z.max (t + 100 * (Z.of_nat n + 1)) t2) with t2 by lia.
  exec_open.
  constructor; try reflexivity.
  cbn [log polls]. rewrite <- ?app_assoc. cbn [app]. reflexivity.
Qed.

(** What the pass of the loop logs before the handshake: the checks (a),
    (b) and the test of the flag. *)
Definition checks_before_yield (t : Z) : list entry :=
  [mkEntry t 130 (EvKeepRunning true);
   mkEntry t 130 (EvShouldKeepRunning true);
   mkEntry t 131 (EvHasAnyInput false);
   mkEntry t 136 (EvTime t);
   mkEntry t 138 (EvToggle true)].

(** The handshake itself, the other thread taking the lock at [t1] during
    the sleep after the [n+1]-th poll and releasing it at [t2]. *)
Definition handshake (t : Z) (n : nat) (t1 t2 : Z) : list entry :=
  [mkEntry t 141 EvClearToggle; mkEntry t 142 (EvRelease Me)]
  ++ polls t (S n)
  ++ [mkEntry t1 0 (EvEnv OtherAcquire);
      mkEntry (t + 100 * (Z.of_nat n + 1)) 145 (EvLocked true);
      mkEntry t2 0 (EvEnv OtherRelease);
      mkEntry t2 151 EvAcquire].

Ltac log_tail :=
  eexists; cbn [log]; unfold checks_before_yield, handshake;
  cbn [polls]; rewrite <- ?app_assoc; cbn [app]; reflexivity.

Lemma iteration_yields f m n t t1 t2 rest ins scr lg st hr pv s :
  shape t Me true true false ins scr
        ((t1, OtherAcquire) :: (t2, OtherRelease) :: rest)
        lg (Some st) (Some hr) pv s ->
  (class_of m = ClsRemoveSDCard -> ins = true) ->
  t + 100 * Z.of_nat n < t1 <= t + 100 * (Z.of_nat n + 1) ->
  t + 100 * (Z.of_nat n + 1) < t2 ->
  (S n < f)%nat ->
  returns (iteration f m s)
    (fun go s' =>
       (exists tail,
           log s' = lg ++ checks_before_yield t ++ handshake t n t1 t2 ++ tail) /\
       lock s' = Me /\
       has_rendered s' = Some true /\
       go = negb (t2 - st >? 1000 * (activation_delay m + duration m))).
Proof.
  intros Sh Hins H1 H2 Hf. open_state s Sh.
  unfold iteration, should_keep_running.
  destruct (class_of m) eqn:Cl;
    try (rewrite (Hins eq_refl) in *);
    do 5 ret_step;
    (match goal with
     | |- returns (bind (yield_lock f) _ ?S5) _ =>
         pose proof (yield_lock_handshake t1 t2 rest true false (inserted S5) scr (Some st)
                       (Some hr) pv n f t (log S5) S5) as Y;
         apply returns_ex in Y;
         [| constructor; reflexivity | exact H1 | exact H2 | exact Hf]
     end;
     destruct Y as [[] [s6 [Y Sh6]]];
     eapply returns_bind; [exact Y |]; clear Y;
     open_state s6 Sh6;
     destruct (t2 - st >? 1000 * (activation_delay m + duration m)) eqn:E;
     destruct hr;
     do 4 ret_step; rewrite E; ret_step;
     first
       [ unfold returns, ret;
         split; [log_tail | repeat split; reflexivity]
       | eapply returns_bind;
         [unfold time_sleep, call; exec_open; reflexivity |];
         unfold returns, ret;
         match goal with
         | |- (exists _, log (advance ?u ?S7) = _) /\ _ =>
             destruct (advance_env u S7) as [[l7 [L7 _]] _ R7 _ _ _ K7 _];
             split; [| split; [apply K7; reflexivity
                              | split; [rewrite R7; reflexivity | reflexivity]]];
             rewrite L7;
             eexists; cbn [log]; unfold checks_before_yield, handshake;
             cbn [polls]; rewrite <- ?app_assoc; cbn [app]; reflexivity
         end ]).
Qed.

(** What a pass of the loop logs when nothing is requested, the toast is
    painted and the duration is not over. *)
Definition quiet_pass (t : Z) : list entry :=
  [mkEntry t 130 (EvKeepRunning true);
   mkEntry t 130 (EvShouldKeepRunning true);
   mkEntry t 131 (EvHasAnyInput false);
   mkEntry t 136 (EvTime t);
   mkEntry t 138 (EvToggle false);
   mkEntry t 160 (EvTime t);
   mkEntry t 165 (EvSleep 100)].

(** A yield requested at [t0], no later than the end of the sleep of a
    pass, is seen by the next pass: the flag is set when that pass
    starts. *)
Lemma iteration_request f m t t0 t1 r ins scr lg st pv s :
  shape t Me true false false ins scr
        ((t0, RequestYield) :: (t1, OtherAcquire) :: r)
        lg (Some st) (Some true) pv s ->
  (class_of m = ClsRemoveSDCard -> ins = true) ->
  t0 <= t + 100 < t1 ->
  (t - st >? 1000 * (activation_delay m + duration m)) = false ->
  returns (iteration f m s)
    (fun go s1 =>
       go = true /\
       shape (t + 100) Me true true false ins scr ((t1, OtherAcquire) :: r)
             (lg ++ quiet_pass t ++ [mkEntry t0 0 (EvEnv RequestYield)])
             (Some st) (Some true) pv s1).
Proof.
  intros Sh Hins H1 E. open_state s Sh.
  assert (L1 : (t0 <=? t + 100) = true) by (apply Z.leb_le; lia).
  assert (L2 : (t1 <=? t + 100) = false) by (apply Z.leb_gt; lia).
  unfold iteration, should_keep_running.
  destruct (class_of m) eqn:Cl;
    try (rewrite (Hins eq_refl) in *);
    do 10 ret_step; rewrite E; ret_step;
    (eapply returns_bind;
     [ unfold time_sleep, call; exec_open; unfold advance;
       cbn [script deliver]; rewrite L1; cbn [apply_action deliver];
       rewrite L2; reflexivity |]);
    unfold returns, ret; (split; [reflexivity |]);
    exec_open; constructor; try reflexivity;
    unfold quiet_pass; cbn [log]; rewrite <- ?app_assoc; cbn [app];
    reflexivity.
Qed.

(** ** The checks of a pass, one after the other *)

Ltac eq_step :=
  etransitivity; [apply bind_ret_eq; exec_open; reflexivity |];
  cbv beta iota delta [negb].




(** (c) Then the yield flag: the handshake, if the flag is set, comes
    before the steps (d), (e), (f), which start from the state in which the
    handshake ends. *)
Lemma pass_checks fuel m s :
  faults s = no_faults -> keep_running s = true -> continuation m s = true ->
  input s = false ->
  exists s3,
    same_world s s3 /\
    log s3 = log s ++ [mkEntry (now s) 130 (EvKeepRunning true);
                       mkEntry (now s) 130 (EvShouldKeepRunning true);
                       mkEntry (now s) 131 (EvHasAnyInput false);
                       mkEntry (now s) 136 (EvTime (now s));
                       mkEntry (now s) 138 (EvToggle (toggle_flag s))] /\
    iteration fuel m s
    = ((if toggle_flag s then yield_lock fuel else ret tt) ;;;
       paint_and_wait m) s3.
Proof.
  intros F K C I.
  destruct s as [n0 l0 k0 tg0 i0 ins0 scr0 sc0 c0 f0 lg0 st0 hr0 pv0].
  cbn [faults keep_running input] in F, K, I. subst.
  unfold continuation in C. cbn [inserted] in C.
  destruct (class_of m) eqn:Cl; try subst ins0;
    (eexists; split; [| split];
     [ | | unfold iteration, should_keep_running; rewrite Cl;
           do 5 eq_step; reflexivity ];
     [ constructor; reflexivity
     | cbn [log now toggle_flag]; rewrite <- !app_assoc; reflexivity ]).
Qed.


(** ** The yield handshake, in full *)

(** The pass that sees the flag: it is the handshake followed by the steps
    (d), (e), (f), and the handshake ends with the flag cleared and the
    lock held again. *)
Lemma iteration_handshake f m n t t1 t2 rest ins scr lg st hr pv s :
  shape t Me true true false ins scr
        ((t1, OtherAcquire) :: (t2, OtherRelease) :: rest)
        lg (Some st) (Some hr) pv s ->
  (class_of m = ClsRemoveSDCard -> ins = true) ->
  t + 100 * Z.of_nat n < t1 <= t + 100 * (Z.of_nat n + 1) ->
  t + 100 * (Z.of_nat n + 1) < t2 ->
  (S n < f)%nat ->
  exists sh,
    iteration f m s = paint_and_wait m sh /\
    shape t2 Me true false false ins scr rest
          (lg ++ checks_before_yield t ++ handshake t n t1 t2)
          (Some st) (Some hr) pv sh.
Proof.
  intros Sh Hins H1 H2 Hf.
  destruct (pass_checks f m s) as [s3 [W [L E]]].
  { exact (sh_faults _ _ _ _ _ _ _ _ _ _ _ _ _ Sh). }
  { exact (sh_keep _ _ _ _ _ _ _ _ _ _ _ _ _ Sh). }
  { unfold continuation. rewrite (sh_inserted _ _ _ _ _ _ _ _ _ _ _ _ _ Sh).
    destruct (class_of m); auto. }
  { exact (sh_input _ _ _ _ _ _ _ _ _ _ _ _ _ Sh). }
  rewrite (sh_toggle _ _ _ _ _ _ _ _ _ _ _ _ _ Sh) in E, L.
  rewrite (sh_now _ _ _ _ _ _ _ _ _ _ _ _ _ Sh),
          (sh_log _ _ _ _ _ _ _ _ _ _ _ _ _ Sh) in L.
  assert (Sh3 : shape t Me true true false ins scr
                      ((t1, OtherAcquire) :: (t2, OtherRelease) :: rest)
                      (lg ++ checks_before_yield t) (Some st) (Some hr) pv s3).
  { destruct W, Sh. constructor; try congruence. exact L. }
  pose proof (yield_lock_handshake t1 t2 rest true false ins scr (Some st)
                (Some hr) pv n f t _ s3 Sh3 H1 H2 Hf) as Y.
  apply returns_ex in Y. destruct Y as [[] [sh [Y Shh]]].
  exists sh. split.
  - rewrite E. exact (bind_ret_eq _ (fun _ => paint_and_wait m) _ _ _ Y).
  - unfold handshake. rewrite <- app_assoc in Shh. exact Shh.
Qed.

(** C4, as the code has it.  A yield requested while the thread monitors
    -- at [t0], no later than the end of the sleep of a pass made at [t],
    the toast painted and its duration not over -- with [keep_running]
    true, no input, no call raising, and another thread that takes the
    lock at [t1], after the release, during the sleep that follows the
    [n+1]-th poll of the wait, and releases it at [t2], after the end of
    that sleep.  (The script gives the time at which the other thread gets
    the lock; a thread that asked for it earlier and waits gets it after
    the release.)  The pass made at [t] goes on, and the next pass,
    100 ms later, starts with the flag set.  That pass is the handshake
    followed by the steps (d), (e), (f) of the loop: it clears the flag,
    releases the lock, polls [locked()] every 100 ms, [n+1] times in vain,
    until the poll that follows the acquire of the other thread finds the
    lock taken; it then blocks in [acquire] until the release at [t2].
    At the end of the handshake the flag is clear, the toast thread holds
    the lock, [keep_running] and the screen are as they were and the log
    is the one given; the steps (d), (e), (f) start from that state, and
    the pass ends with the lock held, leaving the loop exactly when the
    duration is over at [t2]. *)
Theorem C4_yield_handshake :
  forall f m n t t0 t1 t2 rest ins scr lg st pv s,
    shape t Me true false false ins scr
          ((t0, RequestYield) :: (t1, OtherAcquire) :: (t2, OtherRelease) :: rest)
          lg (Some st) (Some true) pv s ->
    (class_of m = ClsRemoveSDCard -> ins = true) ->
    (t - st >? 1000 * (activation_delay m + duration m)) = false ->
    t0 <= t + 100 ->
    t + 100 + 100 * Z.of_nat n < t1 <= t + 100 + 100 * (Z.of_nat n + 1) ->
    t + 100 + 100 * (Z.of_nat n + 1) < t2 ->
    (S n < f)%nat ->
    exists s1 sh go s2 tail,
      iteration f m s = Ret true s1 /\
      shape (t + 100) Me true true false ins scr
            ((t1, OtherAcquire) :: (t2, OtherRelease) :: rest)
            (lg ++ quiet_pass t ++ [mkEntry t0 0 (EvEnv RequestYield)])
            (Some st) (Some true) pv s1 /\
      iteration f m s1 = paint_and_wait m sh /\
      shape t2 Me true false false ins scr rest
            (lg ++ quiet_pass t ++ [mkEntry t0 0 (EvEnv RequestYield)]
                ++ checks_before_yield (t + 100)
                ++ handshake (t + 100) n t1 t2)
            (Some st) (Some true) pv sh /\
      iteration f m s1 = Ret go s2 /\
      log s2 = log sh ++ tail /\
      lock s2 = Me /\
      go = negb (t2 - st >? 1000 * (activation_delay m + duration m)).
Proof.
  intros f m n t t0 t1 t2 rest ins scr lg st pv s Sh Hins E H0 H1 H2 Hf.
  pose proof (iteration_request f m t t0 t1 ((t2, OtherRelease) :: rest)
                ins scr lg st pv s Sh Hins) as R1.
  apply returns_ex in R1; [| lia | exact E].
  destruct R1 as [go1 [s1 [I1 [G1 Sh1]]]]. subst go1.
  destruct (iteration_handshake f m n (t + 100) t1 t2 rest ins scr _ st true
              pv s1 Sh1 Hins H1 H2 Hf) as [sh [Eq Shh]].
  pose proof (iteration_yields f m n (t + 100) t1 t2 rest ins scr _ st true
                pv s1 Sh1 Hins H1 H2 Hf) as R2.
  apply returns_ex in R2.
  destruct R2 as [go [s2 [I2 [[tail L2] [K2 [_ G2]]]]]].
  rewrite <- !app_assoc in Shh.
  exists s1, sh, go, s2, tail.
  split; [exact I1 |]. split; [exact Sh1 |]. split; [exact Eq |].
  split; [exact Shh |]. split; [exact I2 |].
  split; [| split; [exact K2 | exact G2]].
  rewrite L2, (sh_log _ _ _ _ _ _ _ _ _ _ _ _ _ Shh), <- !app_assoc.
  reflexivity.
Qed.

(** A state of the monitoring loop, reached by a run with no delay after
    its first pass: the toast painted at 0, the clock at 100; a yield will
    be requested at 150, the lock taken by another thread at 250 and
    released at 420. *)
Definition monitoring_with_request : State :=
  final (run_body 1 (state_change_manager 0 3)
           (initial Free true (Screen 0)
              [(150, RequestYield); (250, OtherAcquire); (420, OtherRelease)]
              no_faults)).

Lemma C4_witness :
  exists s1 sh go s2,
    iteration 5 (state_change_manager 0 3) monitoring_with_request = Ret true s1 /\
    toggle_flag s1 = true /\
    iteration 5 (state_change_manager 0 3) s1
    = paint_and_wait (state_change_manager 0 3) sh /\
    toggle_flag sh = false /\ lock sh = Me /\ now sh = 420 /\
    log sh = log monitoring_with_request
               ++ quiet_pass 100 ++ [mkEntry 150 0 (EvEnv RequestYield)]
               ++ checks_before_yield 200 ++ handshake 200 0 250 420 /\
    iteration 5 (state_change_manager 0 3) s1 = Ret go s2 /\
    lock s2 = Me.
Proof.
  destruct (C4_yield_handshake 5 (state_change_manager 0 3) 0 100 150 250 420 []
              true (ToastOver (Screen 0)) (log monitoring_with_request) 0
              (Some (Screen 0)) monitoring_with_request)
    as [s1 [sh [go [s2 [tail [I1 [Sh1 [Eq [Shh [I2 [_ [K _]]]]]]]]]]]];
    [ constructor; reflexivity | reflexivity | reflexivity
    | cbv; discriminate | cbv; split; [reflexivity | discriminate]
    | reflexivity | cbv; lia | ].
  exists s1, sh, go, s2.
  split; [exact I1 |].
  split; [exact (sh_toggle _ _ _ _ _ _ _ _ _ _ _ _ _ Sh1) |].
  split; [exact Eq |].
  split; [exact (sh_toggle _ _ _ _ _ _ _ _ _ _ _ _ _ Shh) |].
  split; [exact (sh_lock _ _ _ _ _ _ _ _ _ _ _ _ _ Shh) |].
  split; [exact (sh_now _ _ _ _ _ _ _ _ _ _ _ _ _ Shh) |].
  split; [exact (sh_log _ _ _ _ _ _ _ _ _ _ _ _ _ Shh) |].
  split; [exact I2 | exact K].
Defined.

(** Whether a log has an entry of the given line. *)
Definition logged_at (line : nat) (l : list entry) : bool :=
  existsb (fun x => Nat.eqb (at_line x) line) l.

(** C4, as the claim states it, fails.  A yield requested at 150 and a stop
    at 160: the poll at 200 finds [keep_running] false and the run ends
    there, the flag still set, nothing logged at lines 141 to 151.  A
    yield requested at 150, the lock taken by another thread at 210 and
    given back at 290, between the polls at 200 and at 300: the toast
    thread never sees the lock taken and is still polling, the lock free,
    37 polls later; line 151 is never reached. *)
Lemma C4_counterexample :
  let m := state_change_manager 0 3 in
  let r1 := run 10 m (initial Free true (Screen 0)
                        [(150, RequestYield); (160, RequestStop)] no_faults) in
  let r2 := run 40 m (initial Free true (Screen 0)
                        [(150, RequestYield); (210, OtherAcquire);
                         (290, OtherRelease)] no_faults) in
  (r1 = Ret tt (final r1) /\ now (final r1) = 200 /\
   toggle_flag (final r1) = true /\
   logged_at 141 (log (final r1)) = false /\
   logged_at 142 (log (final r1)) = false) /\
  (r2 = OutOfFuel (final r2) /\ now (final r2) = 3900 /\
   lock (final r2) = Free /\
   In (mkEntry 200 142 (EvRelease Me)) (log (final r2)) /\
   In (mkEntry 210 0 (EvEnv OtherAcquire)) (log (final r2)) /\
   In (mkEntry 290 0 (EvEnv OtherRelease)) (log (final r2)) /\
   logged_at 151 (log (final r2)) = false /\
   logged_at 174 (log (final r2)) = false).
Proof.
  vm_compute. repeat split; in_list.
Qed.

(** ** The order of the checks in one pass through the loop *)




(** * Further properties of the run *)

(** ** Leaving the loop on a stop, on an input, on the removal of the card *)

(** [k] passes of the loop in which nothing happens. *)
Fixpoint passes (t : Z) (k : nat) : list entry :=
  match k with
  | O => []
  | S k' => quiet_pass t ++ passes (t + 100) k'
  end.

(** A pass during which the next action of the other threads is not yet
    due: the loop goes on and the script is as it was. *)
Lemma iteration_idle f m t ta a rest ins scr lg st pv s :
  shape t Me true false false ins scr ((ta, a) :: rest)
        lg (Some st) (Some true) pv s ->
  (class_of m = ClsRemoveSDCard -> ins = true) ->
  t + 100 < ta ->
  (t - st >? 1000 * (activation_delay m + duration m)) = false ->
  returns (iteration f m s)
    (fun go s1 =>
       go = true /\
       shape (t + 100) Me true false false ins scr ((ta, a) :: rest)
             (lg ++ quiet_pass t) (Some st) (Some true) pv s1).
Proof.
  intros Sh Hins H1 E. open_state s Sh.
  assert (L1 : (ta <=? t + 100) = false) by (apply Z.leb_gt; lia).
  unfold iteration, should_keep_running.
  destruct (class_of m) eqn:Cl;
    try (rewrite (Hins eq_refl) in *);
    do 10 ret_step; rewrite E; ret_step;
    (eapply returns_bind;
     [ unfold time_sleep, call; exec_open; unfold advance;
       cbn [script deliver]; rewrite L1; reflexivity |]);
    unfold returns, ret; (split; [reflexivity |]);
    exec_open; constructor; try reflexivity;
    unfold quiet_pass; cbn [log]; rewrite <- ?app_assoc; cbn [app];
    reflexivity.
Qed.

(** The elapsed time only grows: a duration not over at a later poll was
    not over before. *)
Lemma not_over_before m st t u :
  t <= u ->
  (u - st >? 1000 * (activation_delay m + duration m)) = false ->
  (t - st >? 1000 * (activation_delay m + duration m)) = false.
Proof.
  intros H E.
  destruct (Z.gtb_spec (u - st) (1000 * (activation_delay m + duration m)));
    [discriminate |].
  destruct (Z.gtb_spec (t - st) (1000 * (activation_delay m + duration m)));
    [lia | reflexivity].
Qed.

(** The loop idles until the next action of the other threads is due. *)
Lemma monitor_idle m ta a rest ins scr st pv f :
  (class_of m = ClsRemoveSDCard -> ins = true) ->
  forall k t lg s,
    shape t Me true false false ins scr ((ta, a) :: rest)
          lg (Some st) (Some true) pv s ->
    t + 100 * Z.of_nat k < ta ->
    (t + 100 * Z.of_nat k - st >? 1000 * (activation_delay m + duration m)) = false ->
    exists s',
      monitor (k + f) m s = monitor f m s' /\
      shape (t + 100 * Z.of_nat k) Me true false false ins scr ((ta, a) :: rest)
            (lg ++ passes t k) (Some st) (Some true) pv s'.
Proof.
  intros Hins. induction k as [| k IH]; intros t lg s Sh H1 E.
  - exists s. split; [reflexivity |].
    replace (t + 100 * Z.of_nat 0) with t by lia.
    cbn [passes]. rewrite app_nil_r. exact Sh.
  - pose proof (iteration_idle (k + f) m t ta a rest ins scr lg st pv s Sh Hins) as R.
    apply returns_ex in R;
      [| lia | apply (not_over_before m st t (t + 100 * Z.of_nat (S k))); [lia | exact E]].
    destruct R as [go [s1 [It [G Sh1]]]]. subst go.
    destruct (IH (t + 100) (lg ++ quiet_pass t) s1 Sh1) as [s' [Mo Sh']].
    { lia. }
    { replace (t + 100 + 100 * Z.of_nat k) with (t + 100 * Z.of_nat (S k)) by lia.
      exact E. }
    exists s'. split.
    + cbn [Nat.add monitor]. rewrite (bind_ret_eq _ _ _ _ _ It). exact Mo.
    + replace (t + 100 * Z.of_nat (S k)) with (t + 100 + 100 * Z.of_nat k) by lia.
      cbn [passes]. rewrite app_assoc. exact Sh'.
Qed.

(** The actions of the other threads that only set a flag read by the
    loop, and the flags after them. *)
Definition flag_action (a : env_action) : bool :=
  match a with
  | RequestStop | RequestYield | PressInput | ReleaseInput | SetInserted _ => true
  | OtherAcquire | OtherRelease | OtherDraw _ => false
  end.

Definition keep_after (a : env_action) (kr : bool) : bool :=
  match a with RequestStop => false | _ => kr end.

Definition toggle_after (a : env_action) (tg : bool) : bool :=
  match a with RequestYield => true | _ => tg end.

Definition input_after (a : env_action) (i : bool) : bool :=
  match a with PressInput => true | ReleaseInput => false | _ => i end.

Definition inserted_after (a : env_action) (ins : bool) : bool :=
  match a with SetInserted b => b | _ => ins end.

(** The rest of a script has nothing due at [t]. *)
Definition later (t : Z) (rest : list (Z * env_action)) : Prop :=
  match rest with
  | [] => True
  | (tb, _) :: _ => t < tb
  end.

(** A pass during the sleep of which a flag action falls due: the loop
    goes on, and the next pass starts with the flags as the action left
    them. *)
Lemma iteration_deliver f m t ta a rest ins scr lg st pv s :
  shape t Me true false false ins scr ((ta, a) :: rest)
        lg (Some st) (Some true) pv s ->
  (class_of m = ClsRemoveSDCard -> ins = true) ->
  flag_action a = true ->
  ta <= t + 100 -> later (t + 100) rest ->
  (t - st >? 1000 * (activation_delay m + duration m)) = false ->
  returns (iteration f m s)
    (fun go s1 =>
       go = true /\
       shape (t + 100) Me (keep_after a true) (toggle_after a false)
             (input_after a false) (inserted_after a ins) scr rest
             (lg ++ quiet_pass t ++ [mkEntry ta 0 (EvEnv a)])
             (Some st) (Some true) pv s1).
Proof.
  intros Sh Hins Fa H1 Hl E. open_state s Sh.
  assert (L1 : (ta <=? t + 100) = true) by (apply Z.leb_le; lia).
  assert (L2 : deliver (t + 100) rest = set_script rest).
  { destruct rest as [| [tb b] r]; [reflexivity |]. cbn [later] in Hl.
    cbn [deliver]. replace (tb <=? t + 100) with false
      by (symmetry; apply Z.leb_gt; lia). reflexivity. }
  unfold iteration, should_keep_running.
  destruct (class_of m) eqn:Cl;
    try (rewrite (Hins eq_refl) in *);
    do 10 ret_step; rewrite E; ret_step;
    (eapply returns_bind;
     [ unfold time_sleep, call; exec_open; unfold advance;
       cbn [script deliver]; rewrite L1, L2; reflexivity |]);
    unfold returns, ret; (split; [reflexivity |]);
    destruct a; try discriminate Fa;
    cbn [apply_action keep_after toggle_after input_after inserted_after];
    exec_open; constructor; try reflexivity;
    unfold quiet_pass; cbn [log]; rewrite <- ?app_assoc; cbn [app];
    reflexivity.
Qed.

(** The three ways out of the loop before the duration is over, and the
    cleanup that follows: the frame saved before the paint is shown again
    and the lock released. *)
Definition restore_entries (t : Z) (fr : frame) : list entry :=
  [mkEntry t 169 (EvLocked true);
   mkEntry t 171 (EvShowImage (Some fr) Me);
   mkEntry t 174 (EvRelease Me)].

Lemma cleanup_restores t kr tg i ins scr sc lg st fr s :
  shape t Me kr tg i ins scr sc lg st (Some true) (Some fr) s ->
  exists s',
    cleanup s = Ret tt s' /\ screen s' = fr /\ lock s' = Free /\
    log s' = lg ++ restore_entries t fr.
Proof.
  intros Sh.
  destruct (cleanup_spec s true (sh_rendered _ _ _ _ _ _ _ _ _ _ _ _ _ Sh))
    as [s' [C [L [K [Sc _]]]]];
    try (rewrite (sh_faults _ _ _ _ _ _ _ _ _ _ _ _ _ Sh); reflexivity).
  destruct Sh. exists s'. split; [exact C |].
  rewrite sh_lock0, sh_prev0 in Sc. rewrite sh_lock0, sh_prev0, sh_now0, sh_log0 in L.
  split; [exact Sc |]. split; [exact K | exact L].
Qed.

Lemma exit_on_stop f m t tg i ins scr sc lg st hr pv s :
  shape t Me false tg i ins scr sc lg st hr pv s ->
  exists s',
    monitor (S f) m s = Ret tt s' /\
    shape t Me false tg i ins scr sc
          (lg ++ [mkEntry t 130 (EvKeepRunning false)]) st hr pv s'.
Proof.
  intros Sh. open_state s Sh. eexists. split.
  - cbn [monitor]. unfold iteration.
    etransitivity; [apply bind_ret_eq; etransitivity;
                    [apply bind_ret_eq; exec_open; reflexivity |];
                    cbv beta iota delta [negb]; reflexivity |].
    reflexivity.
  - exec_open. constructor; reflexivity.
Qed.

Lemma exit_on_input f m t tg ins scr sc lg st hr pv s :
  shape t Me true tg true ins scr sc lg st hr pv s ->
  (class_of m = ClsRemoveSDCard -> ins = true) ->
  exists s',
    monitor (S f) m s = Ret tt s' /\
    shape t Me true tg true ins scr sc
          (lg ++ [mkEntry t 130 (EvKeepRunning true);
                  mkEntry t 130 (EvShouldKeepRunning true);
                  mkEntry t 131 (EvHasAnyInput true)]) st hr pv s'.
Proof.
  intros Sh Hins. open_state s Sh.
  destruct (class_of m) eqn:Cl; try (rewrite (Hins eq_refl) in *);
    (eexists; split;
     [ cbn [monitor]; unfold iteration, should_keep_running; rewrite Cl;
       etransitivity;
       [ apply bind_ret_eq; exec_open; reflexivity |]; reflexivity
     | exec_open; constructor; try reflexivity;
       cbn [log]; rewrite <- ?app_assoc; reflexivity ]).
Qed.

Lemma exit_on_card_removed f m t tg i scr sc lg st hr pv s :
  shape t Me true tg i false scr sc lg st hr pv s ->
  class_of m = ClsRemoveSDCard ->
  exists s',
    monitor (S f) m s = Ret tt s' /\
    shape t Me true tg i false scr sc
          (lg ++ [mkEntry t 130 (EvKeepRunning true);
                  mkEntry t 130 (EvShouldKeepRunning false)]) st hr pv s'.
Proof.
  intros Sh Cl. open_state s Sh.
  eexists; split;
    [ cbn [monitor]; unfold iteration, should_keep_running; rewrite Cl;
      etransitivity;
      [ apply bind_ret_eq; exec_open; reflexivity |]; reflexivity
    | exec_open; constructor; try reflexivity;
      cbn [log]; rewrite <- ?app_assoc; reflexivity ].
Qed.

(** The loop up to the pass that follows a flag action: [k] idle passes,
    the pass during which the action falls due, and the state in which the
    next pass starts. *)
Lemma monitor_until_action m t ta a rest ins scr lg st pv k f s :
  shape t Me true false false ins scr ((ta, a) :: rest)
        lg (Some st) (Some true) pv s ->
  (class_of m = ClsRemoveSDCard -> ins = true) ->
  flag_action a = true ->
  t + 100 * Z.of_nat k < ta <= t + 100 * (Z.of_nat k + 1) ->
  later (t + 100 * (Z.of_nat k + 1)) rest ->
  (t + 100 * Z.of_nat k - st >? 1000 * (activation_delay m + duration m)) = false ->
  exists s',
    monitor (k + S f) m s = monitor f m s' /\
    shape (t + 100 * (Z.of_nat k + 1)) Me (keep_after a true)
          (toggle_after a false) (input_after a false) (inserted_after a ins)
          scr rest
          (lg ++ passes t (S k) ++ [mkEntry ta 0 (EvEnv a)])
          (Some st) (Some true) pv s'.
Proof.
  intros Sh Hins Fa H1 Hl E.
  destruct (monitor_idle m ta a rest ins scr st pv (S f) Hins k t lg s Sh)
    as [s1 [Mo Sh1]]; [lia | exact E |].
  pose proof (iteration_deliver f m (t + 100 * Z.of_nat k) ta a rest ins scr
                _ st pv s1 Sh1 Hins Fa) as R.
  apply returns_ex in R; [| lia | | exact E].
  2:{ replace (t + 100 * Z.of_nat k + 100) with (t + 100 * (Z.of_nat k + 1)) by lia.
      exact Hl. }
  destruct R as [go [s2 [It [G Sh2]]]]. subst go.
  exists s2. split.
  - rewrite Mo. cbn [monitor]. rewrite (bind_ret_eq _ _ _ _ _ It). reflexivity.
  - replace (t + 100 * (Z.of_nat k + 1)) with (t + 100 * Z.of_nat k + 100) by lia.
    replace (lg ++ passes t (S k) ++ [mkEntry ta 0 (EvEnv a)])
      with ((lg ++ passes t k) ++ quiet_pass (t + 100 * Z.of_nat k)
              ++ [mkEntry ta 0 (EvEnv a)]); [exact Sh2 |].
    rewrite <- !app_assoc. f_equal. clear.
    revert t. induction k as [| k IH]; intros t.
    + replace (t + 100 * Z.of_nat 0) with t by lia. cbn [passes app].
      rewrite app_nil_r. reflexivity.
    + cbn [passes]. rewrite <- !app_assoc. f_equal.
      replace (t + 100 * Z.of_nat (S k)) with (t + 100 + 100 * Z.of_nat k) by lia.
      apply IH.
Qed.

(** X1.  A stop requested while the thread monitors, the toast painted: the
    loop is left at the first poll at or after the request, less than
    100 ms after it, with nothing painted again; the cleanup then shows the
    frame saved before the paint and releases the lock. *)
Theorem stop_during_monitoring :
  forall m t ts rest ins scr lg st fr k f s,
    shape t Me true false false ins scr ((ts, RequestStop) :: rest)
          lg (Some st) (Some true) (Some fr) s ->
    (class_of m = ClsRemoveSDCard -> ins = true) ->
    t + 100 * Z.of_nat k < ts <= t + 100 * (Z.of_nat k + 1) ->
    later (t + 100 * (Z.of_nat k + 1)) rest ->
    (t + 100 * Z.of_nat k - st >? 1000 * (activation_delay m + duration m)) = false ->
    exists s1 s2,
      monitor (k + S (S f)) m s = Ret tt s1 /\
      now s1 = t + 100 * (Z.of_nat k + 1) /\
      0 <= now s1 - ts < 100 /\
      log s1 = lg ++ passes t (S k)
                  ++ [mkEntry ts 0 (EvEnv RequestStop);
                      mkEntry (now s1) 130 (EvKeepRunning false)] /\
      cleanup s1 = Ret tt s2 /\
      screen s2 = fr /\ lock s2 = Free /\
      log s2 = log s1 ++ restore_entries (now s1) fr.
Proof.
  intros m t ts rest ins scr lg st fr k f s Sh Hins H1 Hl E.
  destruct (monitor_until_action m t ts RequestStop rest ins scr lg st (Some fr)
              k (S f) s Sh Hins eq_refl H1 Hl E) as [s0 [Mo Sh0]].
  cbn [keep_after toggle_after input_after inserted_after] in Sh0.
  destruct (exit_on_stop f m _ _ _ _ _ _ _ _ _ _ s0 Sh0) as [s1 [Ex Sh1]].
  destruct (cleanup_restores _ _ _ _ _ _ _ _ _ _ s1 Sh1) as [s2 [C [Sc [K L]]]].
  exists s1, s2.
  pose proof (sh_now _ _ _ _ _ _ _ _ _ _ _ _ _ Sh1) as N.
  pose proof (sh_log _ _ _ _ _ _ _ _ _ _ _ _ _ Sh1) as Lg.
  split; [rewrite Mo; exact Ex |]. split; [exact N |]. split; [lia |].
  split; [rewrite Lg, N, <- !app_assoc; reflexivity |].
  split; [exact C |]. split; [exact Sc |]. split; [exact K |].
  rewrite L, Lg, N. reflexivity.
Qed.

(** X2.  A button pressed while the thread monitors and still down at the
    next poll: the loop is left at that poll, on the input check, and the
    cleanup shows the saved frame and releases the lock. *)
Theorem input_during_monitoring :
  forall m t ti rest ins scr lg st fr k f s,
    shape t Me true false false ins scr ((ti, PressInput) :: rest)
          lg (Some st) (Some true) (Some fr) s ->
    (class_of m = ClsRemoveSDCard -> ins = true) ->
    t + 100 * Z.of_nat k < ti <= t + 100 * (Z.of_nat k + 1) ->
    later (t + 100 * (Z.of_nat k + 1)) rest ->
    (t + 100 * Z.of_nat k - st >? 1000 * (activation_delay m + duration m)) = false ->
    exists s1 s2,
      monitor (k + S (S f)) m s = Ret tt s1 /\
      now s1 = t + 100 * (Z.of_nat k + 1) /\
      0 <= now s1 - ti < 100 /\
      log s1 = lg ++ passes t (S k)
                  ++ [mkEntry ti 0 (EvEnv PressInput);
                      mkEntry (now s1) 130 (EvKeepRunning true);
                      mkEntry (now s1) 130 (EvShouldKeepRunning true);
                      mkEntry (now s1) 131 (EvHasAnyInput true)] /\
      cleanup s1 = Ret tt s2 /\
      screen s2 = fr /\ lock s2 = Free /\
      log s2 = log s1 ++ restore_entries (now s1) fr.
Proof.
  intros m t ti rest ins scr lg st fr k f s Sh Hins H1 Hl E.
  destruct (monitor_until_action m t ti PressInput rest ins scr lg st (Some fr)
              k (S f) s Sh Hins eq_refl H1 Hl E) as [s0 [Mo Sh0]].
  cbn [keep_after toggle_after input_after inserted_after] in Sh0.
  destruct (exit_on_input f m _ _ _ _ _ _ _ _ _ s0 Sh0 Hins) as [s1 [Ex Sh1]].
  destruct (cleanup_restores _ _ _ _ _ _ _ _ _ _ s1 Sh1) as [s2 [C [Sc [K L]]]].
  exists s1, s2.
  pose proof (sh_now _ _ _ _ _ _ _ _ _ _ _ _ _ Sh1) as N.
  pose proof (sh_log _ _ _ _ _ _ _ _ _ _ _ _ _ Sh1) as Lg.
  split; [rewrite Mo; exact Ex |]. split; [exact N |]. split; [lia |].
  split; [rewrite Lg, N, <- !app_assoc; reflexivity |].
  split; [exact C |]. split; [exact Sc |]. split; [exact K |].
  rewrite L, Lg, N. reflexivity.
Qed.

(** X3.  The reminder to remove the SD card: when the card is removed while
    the thread monitors, the loop is left at the next poll, on
    [should_keep_running], whatever is left of the duration, and the
    cleanup shows the saved frame and releases the lock. *)
Theorem card_removed_during_monitoring :
  forall m t tr rest scr lg st fr k f s,
    class_of m = ClsRemoveSDCard ->
    shape t Me true false false true scr ((tr, SetInserted false) :: rest)
          lg (Some st) (Some true) (Some fr) s ->
    t + 100 * Z.of_nat k < tr <= t + 100 * (Z.of_nat k + 1) ->
    later (t + 100 * (Z.of_nat k + 1)) rest ->
    (t + 100 * Z.of_nat k - st >? 1000 * (activation_delay m + duration m)) = false ->
    exists s1 s2,
      monitor (k + S (S f)) m s = Ret tt s1 /\
      now s1 = t + 100 * (Z.of_nat k + 1) /\
      0 <= now s1 - tr < 100 /\
      log s1 = lg ++ passes t (S k)
                  ++ [mkEntry tr 0 (EvEnv (SetInserted false));
                      mkEntry (now s1) 130 (EvKeepRunning true);
                      mkEntry (now s1) 130 (EvShouldKeepRunning false)] /\
      cleanup s1 = Ret tt s2 /\
      screen s2 = fr /\ lock s2 = Free /\
      log s2 = log s1 ++ restore_entries (now s1) fr.
Proof.
  intros m t tr rest scr lg st fr k f s Cl Sh H1 Hl E.
  destruct (monitor_until_action m t tr (SetInserted false) rest true scr lg st
              (Some fr) k (S f) s Sh (fun _ => eq_refl) eq_refl H1 Hl E)
    as [s0 [Mo Sh0]].
  cbn [keep_after toggle_after input_after inserted_after] in Sh0.
  destruct (exit_on_card_removed f m _ _ _ _ _ _ _ _ _ s0 Sh0 Cl) as [s1 [Ex Sh1]].
  destruct (cleanup_restores _ _ _ _ _ _ _ _ _ _ s1 Sh1) as [s2 [C [Sc [K L]]]].
  exists s1, s2.
  pose proof (sh_now _ _ _ _ _ _ _ _ _ _ _ _ _ Sh1) as N.
  pose proof (sh_log _ _ _ _ _ _ _ _ _ _ _ _ _ Sh1) as Lg.
  split; [rewrite Mo; exact Ex |]. split; [exact N |]. split; [lia |].
  split; [rewrite Lg, N, <- !app_assoc; reflexivity |].
  split; [exact C |]. split; [exact Sc |]. split; [exact K |].
  rewrite L, Lg, N. reflexivity.
Qed.

(** States of the monitoring loop reached by a run after its first pass,
    the toast painted: a stop is requested, a button is pressed, 150 ms
    later. *)
Definition monitoring_before_stop : State :=
  final (run_body 1 (state_change_manager 0 3)
           (initial Free true (Screen 0) [(250, RequestStop)] no_faults)).

Definition monitoring_before_input : State :=
  final (run_body 1 (state_change_manager 0 3)
           (initial Free true (Screen 0) [(250, PressInput)] no_faults)).

(** The reminder after its delay of 3 s and its first pass; the card is
    removed 150 ms later. *)
Definition reminder_before_removal : State :=
  final (run_body 1 remove_sdcard_manager
           (initial Free true (Screen 0) [(3250, SetInserted false)] no_faults)).

Lemma stop_during_monitoring_witness :
  exists s1 s2,
    monitor 3 (state_change_manager 0 3) monitoring_before_stop = Ret tt s1 /\
    now s1 = 300 /\
    cleanup s1 = Ret tt s2 /\ screen s2 = Screen 0 /\ lock s2 = Free.
Proof.
  destruct (stop_during_monitoring (state_change_manager 0 3) 100 250 [] true
              (ToastOver (Screen 0)) (log monitoring_before_stop) 0 (Screen 0)
              1 0 monitoring_before_stop)
    as [s1 [s2 [Mo [N [_ [_ [C [Sc [K _]]]]]]]]];
    [ constructor; reflexivity | reflexivity | cbv; split; [reflexivity | discriminate]
    | exact I | reflexivity | ].
  exists s1, s2.
  split; [exact Mo |]. split; [exact N |]. split; [exact C |].
  split; [exact Sc | exact K].
Defined.

Lemma input_during_monitoring_witness :
  exists s1 s2,
    monitor 3 (state_change_manager 0 3) monitoring_before_input = Ret tt s1 /\
    now s1 = 300 /\
    cleanup s1 = Ret tt s2 /\ screen s2 = Screen 0 /\ lock s2 = Free.
Proof.
  destruct (input_during_monitoring (state_change_manager 0 3) 100 250 [] true
              (ToastOver (Screen 0)) (log monitoring_before_input) 0 (Screen 0)
              1 0 monitoring_before_input)
    as [s1 [s2 [Mo [N [_ [_ [C [Sc [K _]]]]]]]]];
    [ constructor; reflexivity | reflexivity | cbv; split; [reflexivity | discriminate]
    | exact I | reflexivity | ].
  exists s1, s2.
  split; [exact Mo |]. split; [exact N |]. split; [exact C |].
  split; [exact Sc | exact K].
Defined.

Lemma card_removed_during_monitoring_witness :
  exists s1 s2,
    monitor 3 remove_sdcard_manager reminder_before_removal = Ret tt s1 /\
    now s1 = 3300 /\
    cleanup s1 = Ret tt s2 /\ screen s2 = Screen 0 /\ lock s2 = Free.
Proof.
  destruct (card_removed_during_monitoring remove_sdcard_manager 3100 3250 []
              (ToastOver (Screen 0)) (log reminder_before_removal) 0 (Screen 0)
              1 0 reminder_before_removal)
    as [s1 [s2 [Mo [N [_ [_ [C [Sc [K _]]]]]]]]];
    [ reflexivity | constructor; reflexivity
    | cbv; split; [reflexivity | discriminate]
    | exact I | reflexivity | ].
  exists s1, s2.
  split; [exact Mo |]. split; [exact N |]. split; [exact C |].
  split; [exact Sc | exact K].
Defined.

(** ** One paint per run *)

Definition is_render (x : entry) : bool :=
  match what x with EvRender _ => true | _ => false end.

Definition is_capture (x : entry) : bool :=
  match what x with EvCapture _ _ => true | _ => false end.

(** The number of paints of the toast, and of captures of the frame under
    it, in a log. *)
Definition paints (l : list entry) : nat := List.length (filter is_render l).
Definition captures (l : list entry) : nat := List.length (filter is_capture l).

#[local] Arguments paints : simpl never.
#[local] Arguments captures : simpl never.

(** What [has_rendered] stands for: one paint when it is true, none when
    it is false or unbound. *)
Definition rendered_count (s : State) : nat :=
  match has_rendered s with Some true => 1%nat | _ => 0%nat end.

(** Between two passes of the loop the paint and its capture go together;
    when a call raises, the capture may have been made and the paint
    not. *)
Record counted (s : State) : Prop := {
  cnt_paints : paints (log s) = rendered_count s;
  cnt_captures : captures (log s) = paints (log s)
}.

Record counted_exit (s : State) : Prop := {
  cx_paints : paints (log s) = rendered_count s;
  cx_low : (paints (log s) <= captures (log s))%nat;
  cx_high : (captures (log s) <= 1)%nat
}.

Record unpainted (s : State) : Prop := {
  un_paints : paints (log s) = 0%nat;
  un_captures : captures (log s) = 0%nat;
  un_flag : has_rendered s <> Some true
}.

Lemma paints_app l q : paints (l ++ q) = (paints l + paints q)%nat.
Proof. unfold paints. rewrite filter_app, List.length_app. reflexivity. Qed.

Lemma captures_app l q : captures (l ++ q) = (captures l + captures q)%nat.
Proof. unfold captures. rewrite filter_app, List.length_app. reflexivity. Qed.

Lemma paints_quiet q : Forall quiet_entry q -> paints q = 0%nat.
Proof.
  induction 1 as [| x q Hx _ IH]; [reflexivity |].
  unfold paints in *. cbn [filter].
  assert (R : is_render x = false)
    by (unfold is_render, quiet_entry in *; destruct (what x);
        first [reflexivity | destruct Hx]).
  rewrite R. exact IH.
Qed.

Lemma captures_quiet q : Forall quiet_entry q -> captures q = 0%nat.
Proof.
  induction 1 as [| x q Hx _ IH]; [reflexivity |].
  unfold captures in *. cbn [filter].
  assert (R : is_capture x = false)
    by (unfold is_capture, quiet_entry in *; destruct (what x);
        first [reflexivity | destruct Hx]).
  rewrite R. exact IH.
Qed.

Lemma rendered_count_le s : (rendered_count s <= 1)%nat.
Proof. unfold rendered_count. destruct (has_rendered s) as [[|] |]; lia. Qed.

Lemma counted_exits s : counted s -> counted_exit s.
Proof.
  intros [P C]. pose proof (rendered_count_le s). constructor; lia.
Qed.

Lemma unpainted_exits s : unpainted s -> counted_exit s.
Proof.
  intros [P C F]. constructor; try lia.
  rewrite P. unfold rendered_count. destruct (has_rendered s) as [[|] |]; congruence.
Qed.

Lemma counted_quiet s s' : counted s -> quiet_step s s' -> counted s'.
Proof.
  intros [P C] [[l [L Q]] R]. unfold rendered_count in *.
  constructor; unfold rendered_count;
    rewrite L, ?paints_app, ?captures_app, ?R,
            ?(paints_quiet l Q), ?(captures_quiet l Q); lia.
Qed.

Lemma counted_exit_quiet s s' : counted_exit s -> quiet_step s s' -> counted_exit s'.
Proof.
  intros [P Lo Hi] [[l [L Q]] R]. unfold rendered_count in *.
  constructor; unfold rendered_count;
    rewrite L, ?paints_app, ?captures_app, ?R,
            ?(paints_quiet l Q), ?(captures_quiet l Q); lia.
Qed.

Lemma unpainted_quiet s s' : unpainted s -> quiet_step s s' -> unpainted s'.
Proof.
  intros [P C F] [[l [L Q]] R].
  constructor;
    [ rewrite L, paints_app, (paints_quiet l Q); lia
    | rewrite L, captures_app, (captures_quiet l Q); lia
    | rewrite R; exact F ].
Qed.

(** A quiet step keeps an assertion that quiet steps cannot break. *)
Lemma hoare_quiet_inv {A} (P E : State -> Prop) (m : M A) :
  (forall s s', P s -> quiet_step s s' -> P s') ->
  (forall s, P s -> E s) ->
  (forall s, quiet_step s (final (m s))) ->
  hoare P m (fun _ => P) E.
Proof.
  intros K PE Q s Hs. specialize (Q s).
  destruct (m s); cbn in Q; [| apply PE | apply PE | apply PE]; eapply K; eauto.
Qed.

Ltac quiet_call :=
  intros;
  first [ apply time_time_quiet | apply time_sleep_quiet
        | apply has_any_input_quiet | apply should_keep_running_quiet
        | apply read_keep_running_quiet | apply read_toggle_quiet
        | apply local_quiet | apply lock_release_quiet
        | apply lock_acquire_quiet | apply wait_locked_quiet
        | apply lock_locked_quiet | apply show_image_quiet ].

Ltac quiet_counted :=
  apply hoare_quiet_inv; [exact counted_quiet | exact counted_exits | quiet_call].

Ltac quiet_exit :=
  apply hoare_quiet_inv; [exact counted_exit_quiet | auto | quiet_call].

Lemma yield_lock_counted fuel :
  hoare counted (yield_lock fuel) (fun _ => counted) counted_exit.
Proof.
  unfold yield_lock.
  eapply hoare_bind with (R := fun _ => counted).
  { intros s C. cbn. apply (counted_quiet s); [exact C | one_quiet]. }
  intros ?. eapply hoare_bind; [quiet_counted | intros ?].
  eapply hoare_bind; [quiet_counted | intros ?].
  quiet_counted.
Qed.

(** The first paint: from a state with [has_rendered] false, one capture,
    one paint, and [has_rendered] true; when the capture or the paint
    raises, no paint. *)
Lemma first_render_counted :
  hoare (fun s => counted s /\ has_rendered s = Some false) first_render
        (fun _ => counted) counted_exit.
Proof.
  intros s [[P C] H].
  unfold rendered_count in P. rewrite H in P. rewrite P in C.
  unfold first_render, bind, canvas_copy, toast_render, modify.
  unfold call; cbn. destruct (faults s (calls s)); cbn.
  - constructor; unfold rendered_count; cbn; rewrite ?paints_app, ?captures_app, ?H;
      unfold paints, captures in *; cbn; lia.
  - destruct (faults s (S (calls s))); cbn.
    + constructor; unfold rendered_count; cbn;
        rewrite ?paints_app, ?captures_app, ?H;
        unfold paints, captures in *; cbn; lia.
    + constructor; unfold rendered_count; cbn;
        rewrite ?paints_app, ?captures_app;
        unfold paints, captures in *; cbn; lia.
Qed.

Lemma iteration_counted fuel m :
  hoare counted (iteration fuel m) (fun _ => counted) counted_exit.
Proof.
  unfold iteration.
  eapply hoare_bind; [quiet_counted | intros kr].
  destruct kr; cbn [negb]; [| apply hoare_ret'; auto].
  eapply hoare_bind; [quiet_counted | intros skr].
  destruct skr; cbn [negb]; [| apply hoare_ret'; auto].
  eapply hoare_bind; [quiet_counted | intros i].
  destruct i; [apply hoare_ret'; auto |].
  eapply hoare_bind; [quiet_counted | intros ?].
  eapply hoare_bind; [quiet_counted | intros tg].
  eapply hoare_bind with (R := fun _ => counted).
  { destruct tg; [apply yield_lock_counted | apply hoare_ret'; auto]. }
  intros ?.
  eapply hoare_bind with (R := fun hr : bool => fun s => counted s /\ has_rendered s = Some hr).
  { intros s C. unfold local. destruct (has_rendered s) as [hr |] eqn:H.
    - split; [exact C | exact H].
    - apply counted_exits. exact C. }
  intros hr.
  eapply hoare_bind with (R := fun _ => counted).
  { destruct hr; cbn [negb];
      [apply hoare_ret'; intros s [C _]; exact C | apply first_render_counted]. }
  intros ?.
  eapply hoare_bind; [quiet_counted | intros t].
  eapply hoare_bind; [quiet_counted | intros st].
  eapply hoare_bind with (R := fun _ => counted).
  { destruct (t - st >? _); [quiet_counted | apply hoare_ret'; auto]. }
  intros hr'. destruct hr'; [apply hoare_ret'; auto |].
  eapply hoare_bind; [quiet_counted | intros ?].
  apply hoare_ret'; auto.
Qed.

Lemma monitor_counted fuel m :
  hoare counted (monitor fuel m) (fun _ => counted) counted_exit.
Proof.
  induction fuel as [| n IH]; cbn.
  - intros s C. apply counted_exits. exact C.
  - eapply hoare_bind; [apply iteration_counted | intros go].
    destruct go; [exact IH | apply hoare_ret'; auto].
Qed.

Lemma run_body_counted fuel m :
  hoare unpainted (run_body fuel m) (fun _ => counted_exit) counted_exit.
Proof.
  unfold run_body.
  eapply hoare_bind with (R := fun _ => unpainted).
  { apply hoare_quiet_inv;
      [exact unpainted_quiet | exact unpainted_exits
      | intros; apply time_time_quiet]. }
  intros t.
  eapply hoare_bind with (R := fun _ => unpainted).
  { intros s [P C F]. cbn. constructor; assumption. }
  intros ?.
  eapply hoare_bind with (R := fun _ => counted).
  { intros s [P C F]. cbn. constructor; cbn; [exact P | lia]. }
  intros ?.
  eapply hoare_bind with (R := fun _ => counted).
  { intros s [P C]. cbn. constructor; assumption. }
  intros ?.
  eapply hoare_bind with (R := fun _ => counted).
  { destruct (activation_delay m >? 0); [quiet_counted | apply hoare_ret'; auto]. }
  intros ?.
  eapply hoare_bind; [quiet_counted | intros ?].
  eapply hoare_weaken; [apply monitor_counted | auto | | auto].
  intros ? s C. apply counted_exits. exact C.
Qed.

Lemma cleanup_counted : hoare counted_exit cleanup (fun _ => counted_exit) counted_exit.
Proof.
  unfold cleanup.
  eapply hoare_bind; [quiet_exit | intros hr].
  eapply hoare_bind with (R := fun _ => counted_exit).
  { destruct hr; [quiet_exit | apply hoare_ret'; auto]. }
  intros l.
  eapply hoare_bind with (R := fun _ => counted_exit).
  { destruct l; [| apply hoare_ret'; auto].
    eapply hoare_bind with (R := fun _ => counted_exit).
    { intros s S. exact S. }
    intros prev. quiet_exit. }
  intros ?. quiet_exit.
Qed.

Lemma run_counted fuel m :
  hoare unpainted (run fuel m) (fun _ => counted_exit) counted_exit.
Proof.
  unfold run. eapply hoare_try_finally;
    [apply run_body_counted | apply cleanup_counted | auto].
Qed.

(** X4.  In every execution of [run], whatever the other threads do,
    whichever call raises and wherever the run is observed: the toast is
    painted at most once and the frame under it is captured at most once,
    also when the lock was yielded and another thread has drawn over the
    toast; there is no paint without a capture before it, and the toast
    has been painted exactly when [has_rendered] is true. *)
Theorem paints_at_most_once :
  forall fuel m h ins scr sc fl,
    let s := final (run fuel m (initial h ins scr sc fl)) in
    (paints (log s) <= captures (log s))%nat /\
    (captures (log s) <= 1)%nat /\
    (paints (log s) = 1%nat <-> has_rendered s = Some true).
Proof.
  intros fuel m h ins scr sc fl s.
  assert (C : counted_exit s).
  { assert (U : unpainted (initial h ins scr sc fl))
      by (constructor; cbn; [reflexivity | reflexivity | discriminate]).
    pose proof (run_counted fuel m _ U) as H.
    subst s. destruct (run fuel m _); exact H. }
  destruct C as [P Lo Hi]. split; [exact Lo |]. split; [exact Hi |].
  rewrite P. unfold rendered_count.
  destruct (has_rendered s) as [[|] |]; split; intros H;
    try reflexivity; try discriminate.
Qed.

(** ** A yield that nobody takes *)

(** No other thread will ever take the lock. *)
Definition no_taker (sc : list (Z * env_action)) : Prop :=
  Forall (fun p => snd p <> OtherAcquire) sc.

(** The lock is free and stays so; the oracle is silent. *)
Record idle_lock (s : State) : Prop := {
  il_lock : lock s = Free;
  il_faults : faults s = no_faults;
  il_script : no_taker (script s)
}.

(** The entries of the wait: the polls of line 145, the sleeps of line 147
    and what the other threads do. *)
Definition wait_entry (x : entry) : Prop :=
  at_line x = 0%nat \/ at_line x = 145%nat \/ at_line x = 147%nat.

Lemma apply_action_free t a s :
  a <> OtherAcquire -> lock s = Free -> lock (apply_action t a s) = Free.
Proof.
  intros N L. destruct a; cbn; rewrite ?L; try exact L; try reflexivity.
  congruence.
Qed.

Lemma deliver_free t : forall pend s,
  no_taker pend -> lock s = Free ->
  lock (deliver t pend s) = Free /\ no_taker (script (deliver t pend s)).
Proof.
  induction pend as [| [ta a] rest IH]; intros s N L; cbn [deliver].
  - split; [exact L | constructor].
  - inversion N as [| ? ? Ha Hr]; subst. destruct (ta <=? t).
    + apply IH; [exact Hr | apply apply_action_free; assumption].
    + split; [exact L | exact N].
Qed.

Lemma advance_idle t s : idle_lock s -> idle_lock (advance t s).
Proof.
  intros [L F N]. destruct (deliver_free t (script s) s N L) as [L' N'].
  constructor; unfold advance; cbn [lock faults script set_now].
  - exact L'.
  - rewrite (env_faults _ _ (deliver_env t (script s) s)). exact F.
  - exact N'.
Qed.

(** One round of the wait: the poll finds the lock free, the thread
    sleeps. *)
Definition after_poll (s : State) : State :=
  advance (now s + 100)
    (emit 147 (EvSleep 100)
       (set_calls (S (S (calls s))) (emit 145 (EvLocked false) s))).

Lemma wait_locked_step f s :
  lock s = Free -> faults s = no_faults ->
  wait_locked (S f) s = wait_locked f (after_poll s).
Proof.
  intros L F. destruct s. cbn [lock faults] in L, F. subst.
  cbn [wait_locked]. unfold after_poll. exec_open. reflexivity.
Qed.

Lemma after_poll_idle s : idle_lock s -> idle_lock (after_poll s).
Proof.
  intros [L F N]. unfold after_poll. apply advance_idle.
  constructor; [exact L | exact F | exact N].
Qed.

Lemma after_poll_log s :
  exists l, log (after_poll s) = log s ++ l /\ Forall wait_entry l.
Proof.
  unfold after_poll.
  match goal with
  | |- context [advance ?t ?s0] =>
      destruct (env_log _ _ (advance_env t s0)) as [l [L E]]
  end.
  eexists. split.
  - rewrite L. cbn [log emit emit_at set_log set_calls].
    rewrite <- !app_assoc. reflexivity.
  - cbn [app]. constructor; [right; left; reflexivity |].
    constructor; [right; right; reflexivity |].
    eapply Forall_impl; [| exact E]. intros x [Z0 _]. left. exact Z0.
Qed.

(** The wait of the yield, when no other thread ever takes the lock: it
    polls for ever, whatever else is requested in the meantime. *)
Lemma wait_locked_no_taker : forall fuel s,
  idle_lock s ->
  exists s' l,
    wait_locked fuel s = OutOfFuel s' /\
    idle_lock s' /\
    now s' = now s + 100 * Z.of_nat fuel /\
    log s' = log s ++ l /\ Forall wait_entry l.
Proof.
  induction fuel as [| f IH]; intros s I.
  - exists s, []. split; [reflexivity |]. split; [exact I |].
    split; [cbn; lia |]. split; [rewrite app_nil_r; reflexivity | constructor].
  - destruct (IH (after_poll s) (after_poll_idle s I))
      as [s' [l [W [I' [T [Lg Fa]]]]]].
    destruct (after_poll_log s) as [l0 [L0 F0]].
    exists s', (l0 ++ l).
    split; [rewrite (wait_locked_step f s (il_lock s I) (il_faults s I)); exact W |].
    split; [exact I' |].
    split; [rewrite T; unfold after_poll, advance; cbn [now set_now]; lia |].
    split; [rewrite Lg, L0, app_assoc; reflexivity |].
    apply Forall_app. split; assumption.
Qed.

(** X5.  A yield that no thread takes up.  When the flag of the yield is
    set and no other thread ever acquires the lock, the pass that sees the
    flag releases the lock and then polls [locked()] for ever: whatever the
    fuel, the pass does not return, the lock stays free, and after the
    release nothing is logged but the polls, their sleeps and the actions
    of the other threads -- a stop requested or a button pressed in the
    meantime is never looked at. *)
Theorem yield_without_taker_hangs :
  forall fuel m t ins scr sc lg st hr pv s,
    shape t Me true true false ins scr sc lg (Some st) (Some hr) pv s ->
    (class_of m = ClsRemoveSDCard -> ins = true) ->
    no_taker sc ->
    exists s' l,
      iteration fuel m s = OutOfFuel s' /\
      lock s' = Free /\
      now s' = t + 100 * Z.of_nat fuel /\
      has_rendered s' = Some hr /\
      log s' = lg ++ checks_before_yield t
                  ++ [mkEntry t 141 EvClearToggle; mkEntry t 142 (EvRelease Me)]
                  ++ l /\
      Forall wait_entry l.
Proof.
  intros fuel m t ins scr sc lg st hr pv s Sh Hins N. open_state s Sh.
  unfold iteration, should_keep_running.
  destruct (class_of m) eqn:Cl;
    try (rewrite (Hins eq_refl) in *);
    exec_open;
    match goal with
    | |- context [wait_locked fuel ?S0] =>
        destruct (wait_locked_no_taker fuel S0) as [s' [l [W [I' [T [Lg Fa]]]]]];
        [constructor; [reflexivity | reflexivity | exact N] |];
        pose proof (wait_locked_quiet fuel S0) as Q;
        rewrite W in Q; cbn [final] in Q;
        rewrite W; exists s', l;
        split; [reflexivity |]; split; [exact (il_lock _ I') |];
        split; [exact T |];
        split; [exact (quiet_has_rendered _ _ Q) |];
        split; [| exact Fa];
        refine (eq_trans Lg _); cbn [log]; unfold checks_before_yield;
        rewrite <- !app_assoc; reflexivity
    end.
Qed.

(** The toast painted at 0 and a yield requested at 50, which no thread
    takes up; a stop is requested at 450. *)
Definition yield_not_taken : State :=
  final (run_body 1 (state_change_manager 0 3)
           (initial Free true (Screen 0)
              [(50, RequestYield); (450, RequestStop)] no_faults)).

Lemma yield_without_taker_hangs_witness :
  exists s',
    iteration 20 (state_change_manager 0 3) yield_not_taken = OutOfFuel s' /\
    lock s' = Free /\ now s' = 2100.
Proof.
  destruct (yield_without_taker_hangs 20 (state_change_manager 0 3) 100 true
              (ToastOver (Screen 0)) [(450, RequestStop)]
              (log yield_not_taken) 0 true (Some (Screen 0)) yield_not_taken)
    as [s' [l [It [K [T _]]]]];
    [ constructor; reflexivity | reflexivity
    | constructor; [discriminate | constructor] | ].
  exists s'. split; [exact It |]. split; [exact K | exact T].
Defined.

(** ** A whole run of each variant *)

(** What the pass that paints the toast logs. *)
Definition paint_pass (t : Z) (scr : frame) : list entry :=
  [mkEntry t 130 (EvKeepRunning true);
   mkEntry t 130 (EvShouldKeepRunning true);
   mkEntry t 131 (EvHasAnyInput false);
   mkEntry t 136 (EvTime t);
   mkEntry t 138 (EvToggle false);
   mkEntry t 155 (EvCapture scr Me);
   mkEntry t 157 (EvRender Me);
   mkEntry t 158 EvHasRendered;
   mkEntry t 160 (EvTime t);
   mkEntry t 165 (EvSleep 100)].

(** What the run logs before its loop: the clock read, the sleep of the
    delay if there is one, the acquire. *)
Definition delay_entries (d : Z) : list entry :=
  mkEntry 0 119 (EvTime 0)
  :: (if d >? 0 then [mkEntry 0 123 (EvSleep (1000 * d))] else [])
  ++ [mkEntry (1000 * d) 128 EvAcquire].

(** The pass that paints: nothing requested, nothing due before the end of
    its sleep, the duration not over. *)
Lemma iteration_paints f m t ta a rest ins scr lg st pv s :
  shape t Me true false false ins scr ((ta, a) :: rest)
        lg (Some st) (Some false) pv s ->
  (class_of m = ClsRemoveSDCard -> ins = true) ->
  t + 100 < ta ->
  (t - st >? 1000 * (activation_delay m + duration m)) = false ->
  returns (iteration f m s)
    (fun go s1 =>
       go = true /\
       shape (t + 100) Me true false false ins (ToastOver scr) ((ta, a) :: rest)
             (lg ++ paint_pass t scr) (Some st) (Some true) (Some scr) s1).
Proof.
  intros Sh Hins H1 E. open_state s Sh.
  assert (L1 : (ta <=? t + 100) = false) by (apply Z.leb_gt; lia).
  unfold iteration, should_keep_running.
  destruct (class_of m) eqn:Cl;
    try (rewrite (Hins eq_refl) in *);
    do 10 ret_step; rewrite E; ret_step;
    (eapply returns_bind;
     [ unfold time_sleep, call; exec_open; unfold advance;
       cbn [script deliver]; rewrite L1; reflexivity |]);
    unfold returns, ret; (split; [reflexivity |]);
    exec_open; constructor; try reflexivity;
    unfold paint_pass; cbn [log]; rewrite <- ?app_assoc; cbn [app];
    reflexivity.
Qed.

(** The run up to its loop, nothing being due before the end of the
    delay. *)
Lemma run_body_start f m ins scr ta a rest :
  0 <= activation_delay m -> 1000 * activation_delay m < ta ->
  exists s1,
    run_body f m (initial Free ins scr ((ta, a) :: rest) no_faults)
    = monitor f m s1 /\
    shape (1000 * activation_delay m) Me true false false ins scr
          ((ta, a) :: rest) (delay_entries (activation_delay m))
          (Some 0) (Some false) None s1.
Proof.
  intros HD H1. unfold delay_entries.
  destruct (Z.gtb_spec (activation_delay m) 0) as [G | G].
  - assert (L1 : (ta <=? 0 + 1000 * activation_delay m) = false)
      by (apply Z.leb_gt; lia).
    assert (G' : (activation_delay m >? 0) = true) by (apply Z.gtb_lt; lia).
    eexists. split.
    + unfold run_body. rewrite G'.
      do 4 step_with ltac:(exec_open; reflexivity).
      step_with ltac:(unfold time_sleep, call; exec_open; unfold advance;
                      cbn [script deliver]; rewrite L1; reflexivity).
      step_with ltac:(unfold lock_acquire, call; exec_open;
                      rewrite acquire_wait_free by reflexivity; reflexivity).
      reflexivity.
    + exec_open. replace (0 + 1000 * activation_delay m)
        with (1000 * activation_delay m) by lia.
      constructor; reflexivity.
  - assert (G' : (activation_delay m >? 0) = false)
      by (destruct (Z.gtb_spec (activation_delay m) 0); [lia | reflexivity]).
    assert (Z0 : activation_delay m = 0) by lia.
    eexists. split.
    + unfold run_body. rewrite G'.
      do 5 step_with ltac:(exec_open; reflexivity).
      step_with ltac:(unfold lock_acquire, call; exec_open;
                      rewrite acquire_wait_free by reflexivity; reflexivity).
      reflexivity.
    + exec_open. rewrite Z0. constructor; reflexivity.
Qed.

(** The run up to the end of the pass that paints. *)
Lemma run_body_painted f m ins scr ta a rest :
  0 <= activation_delay m -> 0 <= duration m ->
  (class_of m = ClsRemoveSDCard -> ins = true) ->
  1000 * activation_delay m + 100 < ta ->
  exists s1,
    run_body (S f) m (initial Free ins scr ((ta, a) :: rest) no_faults)
    = monitor f m s1 /\
    shape (1000 * activation_delay m + 100) Me true false false ins
          (ToastOver scr) ((ta, a) :: rest)
          (delay_entries (activation_delay m)
             ++ paint_pass (1000 * activation_delay m) scr)
          (Some 0) (Some true) (Some scr) s1.
Proof.
  intros HD Hd Hins H1.
  destruct (run_body_start (S f) m ins scr ta a rest HD) as [s0 [B Sh0]]; [lia |].
  pose proof (iteration_paints f m _ ta a rest ins scr _ 0 None s0 Sh0 Hins) as R.
  apply returns_ex in R; [| lia |].
  2:{ destruct (Z.gtb_spec (1000 * activation_delay m - 0)
                  (1000 * (activation_delay m + duration m)));
        [lia | reflexivity]. }
  destruct R as [go [s1 [It [G Sh1]]]]. subst go.
  exists s1. split; [| exact Sh1].
  rewrite B. cbn [monitor]. rewrite (bind_ret_eq _ _ _ _ _ It). reflexivity.
Qed.

Lemma cleanup_restores_at t kr tg i ins scr sc lg st fr s :
  shape t Me kr tg i ins scr sc lg st (Some true) (Some fr) s ->
  exists s',
    cleanup s = Ret tt s' /\ screen s' = fr /\ lock s' = Free /\
    now s' = t /\ has_rendered s' = Some true /\
    log s' = lg ++ restore_entries t fr.
Proof.
  intros Sh.
  destruct (cleanup_spec s true (sh_rendered _ _ _ _ _ _ _ _ _ _ _ _ _ Sh))
    as [s' [C [L [K [Sc [N H]]]]]];
    try (rewrite (sh_faults _ _ _ _ _ _ _ _ _ _ _ _ _ Sh); reflexivity).
  destruct Sh. exists s'. split; [exact C |].
  rewrite sh_lock0, sh_prev0 in Sc. rewrite sh_lock0, sh_prev0, sh_now0, sh_log0 in L.
  split; [exact Sc |]. split; [exact K |]. split; [congruence |].
  split; [congruence | exact L].
Qed.

(** The count of paints when a run returns. *)
Lemma paints_at_return fuel m h ins scr sc fl s' :
  run fuel m (initial h ins scr sc fl) = Ret tt s' ->
  paints (log s') = rendered_count s'.
Proof.
  intros R.
  assert (U : unpainted (initial h ins scr sc fl))
    by (constructor; cbn; [reflexivity | reflexivity | discriminate]).
  pose proof (run_counted fuel m _ U) as H.
  rewrite R in H. exact (cx_paints _ H).
Qed.

Section Variants.

Variables (NOTIFICATION_COLOR : string).
Variables (ICON_TOAST_FONT_SIZE EDGE_PADDING BODY_FONT_SIZE BODY_LINE_SPACING : Z).
Variable SDCARD : string.
Variables (ACTION__INSERTED ACTION__REMOVED : string).

(** X6.  The reminder to remove the SD card, as its constructor builds it,
    run with the card in, the lock free and no call raising.  It sleeps
    3 s, takes the lock, saves the frame on the screen and paints the toast
    at 3000 ms; it then polls every 100 ms, and when the card is removed
    -- at any time up to 1000003 s after the start -- it leaves the loop at
    the next poll, less than 100 ms later, shows the saved frame again and
    releases the lock.  The log of the whole run is given. *)
Theorem reminder_until_card_removed :
  forall h scr tr rest k f,
    3100 + 100 * Z.of_nat k < tr <= 3100 + 100 * (Z.of_nat k + 1) ->
    tr <= 1000 * (3 + 1000000) ->
    later (3100 + 100 * (Z.of_nat k + 1)) rest ->
    exists m h' s',
      new_RemoveSDCardToastManagerThread NOTIFICATION_COLOR ICON_TOAST_FONT_SIZE
        EDGE_PADDING BODY_FONT_SIZE BODY_LINE_SPACING SDCARD h = (inr m, h') /\
      run (S (k + S (S f))) m
          (initial Free true scr ((tr, SetInserted false) :: rest) no_faults)
      = Ret tt s' /\
      now s' = 3100 + 100 * (Z.of_nat k + 1) /\
      0 <= now s' - tr < 100 /\
      screen s' = scr /\ lock s' = Free /\
      log s' = delay_entries 3 ++ paint_pass 3000 scr ++ passes 3100 (S k)
                 ++ [mkEntry tr 0 (EvEnv (SetInserted false));
                     mkEntry (now s') 130 (EvKeepRunning true);
                     mkEntry (now s') 130 (EvShouldKeepRunning false)]
                 ++ restore_entries (now s') scr.
Proof.
  intros h scr tr rest k f H1 H2 Hl.
  destruct (new_RemoveSDCardToastManagerThread NOTIFICATION_COLOR
              ICON_TOAST_FONT_SIZE EDGE_PADDING BODY_FONT_SIZE BODY_LINE_SPACING
              SDCARD h) as [r h'] eqn:New.
  unfold new_RemoveSDCardToastManagerThread, base_init, instantiate_toast in New.
  inversion New as [[Hr Hh]]. clear New.
  match type of Hr with inr ?m0 = _ => set (m := m0) in * end.
  subst r h'. exists m, (set_override_ind true (base_thread_init h)).
  destruct (run_body_painted (k + S (S f)) m true scr tr (SetInserted false) rest)
    as [s0 [B Sh0]];
    [ unfold m; cbn; lia | unfold m; cbn; lia | reflexivity
    | unfold m; cbn; lia | ].
  assert (Sh0' : shape 3100 Me true false false true (ToastOver scr)
                       ((tr, SetInserted false) :: rest)
                       (delay_entries 3 ++ paint_pass 3000 scr)
                       (Some 0) (Some true) (Some scr) s0) by exact Sh0.
  clear Sh0.
  destruct (monitor_until_action m 3100 tr (SetInserted false) rest true
              (ToastOver scr) _ 0 (Some scr) k (S f) s0 Sh0'
              (fun _ => eq_refl) eq_refl H1 Hl) as [s1 [Mo Sh1]].
  { destruct (Z.gtb_spec (3100 + 100 * Z.of_nat k - 0)
                (1000 * (activation_delay m + duration m))) as [G | G];
      [unfold m in G; cbn in G; lia | reflexivity]. }
  cbn [keep_after toggle_after input_after inserted_after] in Sh1.
  destruct (exit_on_card_removed f m _ _ _ _ _ _ _ _ _ s1 Sh1 eq_refl)
    as [s2 [Ex Sh2]].
  destruct (cleanup_restores_at _ _ _ _ _ _ _ _ _ _ s2 Sh2)
    as [s3 [C [Sc [K [N [_ L]]]]]].
  exists s3. split; [reflexivity |].
  split; [unfold run, try_finally; rewrite B, Mo, Ex, C; reflexivity |].
  split; [exact N |]. split; [lia |]. split; [exact Sc |]. split; [exact K |].
  rewrite L, N, <- !app_assoc. reflexivity.
Qed.

(** X7.  The toast of an SD card state change, as its constructor builds
    it without timing arguments, run in a calm world: its text names the
    action, it is painted at once, and 3.1 s later the run has shown the
    saved frame again, released the lock and returned. *)
Theorem state_change_toast_three_seconds :
  forall action h ins scr sc fuel,
    action = ACTION__INSERTED \/ action = ACTION__REMOVED ->
    calm sc -> (32 <= fuel)%nat ->
    exists m h' s',
      new_SDCardStateChangeToastManagerThread NOTIFICATION_COLOR
        ICON_TOAST_FONT_SIZE EDGE_PADDING BODY_FONT_SIZE BODY_LINE_SPACING SDCARD
        ACTION__INSERTED ACTION__REMOVED action None None h = (inr m, h') /\
      (action = ACTION__REMOVED ->
       label_text (toast m) = Some "SD card removed"%string) /\
      (action <> ACTION__REMOVED ->
       label_text (toast m) = Some "SD card inserted"%string) /\
      run fuel m (initial Free ins scr sc no_faults) = Ret tt s' /\
      now s' = 3100 /\ screen s' = scr /\ lock s' = Free /\
      In (mkEntry 0 157 (EvRender Me)) (log s') /\
      paints (log s') = 1%nat.
Proof.
  intros action h ins scr sc fuel Ha Hc Hf.
  destruct (new_SDCardStateChangeToastManagerThread NOTIFICATION_COLOR
              ICON_TOAST_FONT_SIZE EDGE_PADDING BODY_FONT_SIZE BODY_LINE_SPACING
              SDCARD ACTION__INSERTED ACTION__REMOVED action None None h)
    as [r h'] eqn:New.
  unfold new_SDCardStateChangeToastManagerThread in New.
  assert (V : negb (String.eqb action ACTION__INSERTED
                    || String.eqb action ACTION__REMOVED) = false).
  { destruct Ha as [Ha | Ha]; subst action; rewrite String.eqb_refl;
      rewrite ?orb_true_r; reflexivity. }
  rewrite V in New. unfold base_init, instantiate_toast in New.
  inversion New as [[Hr Hh]]. clear New.
  match type of Hr with inr ?m0 = _ => set (m := m0) in * end.
  subst r h'. exists m, (set_override_ind true (base_thread_init h)).
  destruct (run_body_calm fuel m ins scr sc) as [s4 [B [P4 I4]]];
    [ unfold m; cbn; lia | unfold m; cbn; lia | exact Hc | discriminate
    | unfold m; cbn; lia | ].
  destruct P4 as [K T I N L F C R Pv S Sc W].
  destruct (cleanup_spec s4 true R) as [s5 [Cl [L5 [K5 [Sc5 [N5 H5]]]]]];
    try (rewrite F; reflexivity).
  assert (Run : run fuel m (initial Free ins scr sc no_faults) = Ret tt s5)
    by (unfold run, try_finally; rewrite B, Cl; reflexivity).
  exists s5. split; [reflexivity |].
  split; [intros E; unfold m; cbn [toast label_text]; rewrite E, String.eqb_refl;
          reflexivity |].
  split; [intros E; unfold m; cbn [toast label_text]; apply String.eqb_neq in E;
          rewrite E; reflexivity |].
  split; [exact Run |].
  split; [rewrite N5, W; unfold m; cbn [activation_delay duration]; lia |].
  split; [rewrite Sc5, L, Pv; reflexivity |].
  split; [exact K5 |].
  split; [rewrite L5; apply in_or_app; left; exact I4 |].
  rewrite (paints_at_return _ _ _ _ _ _ _ _ Run).
  unfold rendered_count. rewrite H5, R. reflexivity.
Qed.

End Variants.

Lemma reminder_until_card_removed_witness :
  exists m h' s',
    new_RemoveSDCardToastManagerThread "orange" 24 8 20 4 "sd" host0
    = (inr m, h') /\
    run 4 m (initial Free true (Screen 0) [(3250, SetInserted false)] no_faults)
    = Ret tt s' /\
    now s' = 3300 /\ screen s' = Screen 0 /\ lock s' = Free.
Proof.
  destruct (reminder_until_card_removed "orange" 24 8 20 4 "sd" host0 (Screen 0)
              3250 [] 1 0)
    as [m [h' [s' [New [R [N [_ [Sc [K _]]]]]]]]];
    [ cbv; split; [reflexivity | discriminate] | cbv; discriminate | exact I | ].
  exists m, h', s'.
  split; [exact New |]. split; [exact R |]. split; [exact N |].
  split; [exact Sc | exact K].
Defined.

Lemma state_change_toast_three_seconds_witness :
  exists m h' s',
    new_SDCardStateChangeToastManagerThread "orange" 24 8 20 4 "sd" "add" "remove"
      "add" None None host0 = (inr m, h') /\
    label_text (toast m) = Some "SD card inserted"%string /\
    run 32 m (initial Free false (Screen 5) [] no_faults) = Ret tt s' /\
    now s' = 3100 /\ screen s' = Screen 5 /\ lock s' = Free.
Proof.
  destruct (state_change_toast_three_seconds "orange" 24 8 20 4 "sd" "add" "remove"
              "add" host0 false (Screen 5) [] 32)
    as [m [h' [s' [New [_ [Lb [R [N [Sc [K _]]]]]]]]]];
    [ left; reflexivity | constructor | lia | ].
  exists m, h', s'.
  split; [exact New |]. split; [apply Lb; discriminate |].
  split; [exact R |]. split; [exact N |]. split; [exact Sc | exact K].
Defined.

(** ** Leaving before the toast is painted *)

(** The run up to its loop when a flag action of another thread falls due
    during the sleep of the delay. *)
Lemma run_body_delivered f m ins scr ta a rest :
  0 < activation_delay m -> ta <= 1000 * activation_delay m ->
  later (1000 * activation_delay m) rest ->
  flag_action a = true ->
  exists s1,
    run_body f m (initial Free ins scr ((ta, a) :: rest) no_faults)
    = monitor f m s1 /\
    shape (1000 * activation_delay m) Me (keep_after a true)
          (toggle_after a false) (input_after a false) (inserted_after a ins)
          scr rest
          [mkEntry 0 119 (EvTime 0);
           mkEntry 0 123 (EvSleep (1000 * activation_delay m));
           mkEntry ta 0 (EvEnv a);
           mkEntry (1000 * activation_delay m) 128 EvAcquire]
          (Some 0) (Some false) None s1.
Proof.
  intros HD H1 Hl Fa.
  assert (G : (activation_delay m >? 0) = true) by (apply Z.gtb_lt; lia).
  assert (L1 : (ta <=? 0 + 1000 * activation_delay m) = true)
    by (apply Z.leb_le; lia).
  assert (L2 : deliver (0 + 1000 * activation_delay m) rest = set_script rest).
  { destruct rest as [| [tb b] r]; [reflexivity |]. cbn [later] in Hl.
    cbn [deliver]. replace (tb <=? 0 + 1000 * activation_delay m) with false
      by (symmetry; apply Z.leb_gt; lia). reflexivity. }
  destruct a; try discriminate Fa;
    cbn [keep_after toggle_after input_after inserted_after];
    (eexists; split;
     [ unfold run_body; rewrite G;
       do 4 step_with ltac:(exec_open; reflexivity);
       step_with ltac:(unfold time_sleep, call; exec_open; unfold advance;
                       cbn [script deliver]; rewrite L1, L2;
                       cbn [apply_action]; exec_open; reflexivity);
       step_with ltac:(unfold lock_acquire, call; exec_open;
                       rewrite acquire_wait_free by reflexivity; reflexivity);
       reflexivity
     | replace (0 + 1000 * activation_delay m)
         with (1000 * activation_delay m) by lia;
       exec_open; constructor; reflexivity ]).
Qed.

(** The cleanup when nothing was painted: the lock is released, the
    screen left as it is. *)
Lemma cleanup_unpainted t kr tg i ins scr sc lg st pv s :
  shape t Me kr tg i ins scr sc lg st (Some false) pv s ->
  exists s',
    cleanup s = Ret tt s' /\ screen s' = scr /\ lock s' = Free /\
    now s' = t /\ has_rendered s' = Some false /\
    log s' = lg ++ [mkEntry t 174 (EvRelease Me)].
Proof.
  intros Sh.
  destruct (cleanup_spec s false (sh_rendered _ _ _ _ _ _ _ _ _ _ _ _ _ Sh))
    as [s' [C [L [K [Sc [N H]]]]]];
    try (rewrite (sh_faults _ _ _ _ _ _ _ _ _ _ _ _ _ Sh); reflexivity).
  destruct Sh. exists s'. split; [exact C |].
  unfold restored_screen in Sc. cbn [andb] in Sc.
  unfold cleanup_entries in L. cbn [app] in L.
  rewrite sh_lock0, sh_now0, sh_log0 in L.
  split; [congruence |]. split; [exact K |]. split; [congruence |].
  split; [congruence | exact L].
Qed.

(** X8.  A button pressed during the activation delay and still down at
    its end: the run sleeps the whole delay, takes the lock, leaves the
    loop on the input check of its first pass, and releases the lock; the
    toast is never painted and the screen is not touched. *)
Theorem input_during_delay :
  forall f m ti rest ins scr,
    0 < activation_delay m ->
    ti <= 1000 * activation_delay m ->
    later (1000 * activation_delay m) rest ->
    (class_of m = ClsRemoveSDCard -> ins = true) ->
    exists s',
      run (S f) m (initial Free ins scr ((ti, PressInput) :: rest) no_faults)
      = Ret tt s' /\
      now s' = 1000 * activation_delay m /\
      log s' = [mkEntry 0 119 (EvTime 0);
                mkEntry 0 123 (EvSleep (1000 * activation_delay m));
                mkEntry ti 0 (EvEnv PressInput);
                mkEntry (now s') 128 EvAcquire;
                mkEntry (now s') 130 (EvKeepRunning true);
                mkEntry (now s') 130 (EvShouldKeepRunning true);
                mkEntry (now s') 131 (EvHasAnyInput true);
                mkEntry (now s') 174 (EvRelease Me)] /\
      paints (log s') = 0%nat /\
      has_rendered s' = Some false /\
      screen s' = scr /\ lock s' = Free.
Proof.
  intros f m ti rest ins scr HD H1 Hl Hins.
  destruct (run_body_delivered (S f) m ins scr ti PressInput rest HD H1 Hl eq_refl)
    as [s1 [B Sh1]].
  cbn [keep_after toggle_after input_after inserted_after] in Sh1.
  destruct (exit_on_input f m _ _ _ _ _ _ _ _ _ s1 Sh1 Hins) as [s2 [Ex Sh2]].
  destruct (cleanup_unpainted _ _ _ _ _ _ _ _ _ _ s2 Sh2)
    as [s3 [C [Sc [K [N [H L]]]]]].
  exists s3.
  split; [unfold run, try_finally; rewrite B, Ex, C; reflexivity |].
  split; [exact N |].
  assert (Lg : log s3
               = [mkEntry 0 119 (EvTime 0);
                  mkEntry 0 123 (EvSleep (1000 * activation_delay m));
                  mkEntry ti 0 (EvEnv PressInput);
                  mkEntry (now s3) 128 EvAcquire;
                  mkEntry (now s3) 130 (EvKeepRunning true);
                  mkEntry (now s3) 130 (EvShouldKeepRunning true);
                  mkEntry (now s3) 131 (EvHasAnyInput true);
                  mkEntry (now s3) 174 (EvRelease Me)])
    by (rewrite L, N; reflexivity).
  split; [exact Lg |]. split; [rewrite Lg; reflexivity |].
  split; [exact H |]. split; [exact Sc | exact K].
Qed.

Lemma input_during_delay_witness :
  exists s',
    run 1 (state_change_manager 2 3)
        (initial Free false (Screen 4) [(1500, PressInput)] no_faults)
    = Ret tt s' /\
    now s' = 2000 /\ paints (log s') = 0%nat /\ screen s' = Screen 4.
Proof.
  destruct (input_during_delay 0 (state_change_manager 2 3) 1500 [] false
              (Screen 4))
    as [s' [R [N [_ [P [_ [Sc _]]]]]]];
    [ reflexivity | cbv; discriminate | exact I | discriminate | ].
  exists s'. split; [exact R |]. split; [exact N |]. split; [exact P | exact Sc].
Defined.

(** X9.  The reminder when the SD card is removed during its activation
    delay: the run sleeps the whole delay, takes the lock, leaves the loop
    on [should_keep_running] in its first pass, and releases the lock; the
    reminder is never painted. *)
Theorem card_removed_during_delay :
  forall f m tr rest scr,
    class_of m = ClsRemoveSDCard ->
    0 < activation_delay m ->
    tr <= 1000 * activation_delay m ->
    later (1000 * activation_delay m) rest ->
    exists s',
      run (S f) m
          (initial Free true scr ((tr, SetInserted false) :: rest) no_faults)
      = Ret tt s' /\
      now s' = 1000 * activation_delay m /\
      log s' = [mkEntry 0 119 (EvTime 0);
                mkEntry 0 123 (EvSleep (1000 * activation_delay m));
                mkEntry tr 0 (EvEnv (SetInserted false));
                mkEntry (now s') 128 EvAcquire;
                mkEntry (now s') 130 (EvKeepRunning true);
                mkEntry (now s') 130 (EvShouldKeepRunning false);
                mkEntry (now s') 174 (EvRelease Me)] /\
      paints (log s') = 0%nat /\
      has_rendered s' = Some false /\
      screen s' = scr /\ lock s' = Free.
Proof.
  intros f m tr rest scr Cl HD H1 Hl.
  destruct (run_body_delivered (S f) m true scr tr (SetInserted false) rest
              HD H1 Hl eq_refl) as [s1 [B Sh1]].
  cbn [keep_after toggle_after input_after inserted_after] in Sh1.
  destruct (exit_on_card_removed f m _ _ _ _ _ _ _ _ _ s1 Sh1 Cl) as [s2 [Ex Sh2]].
  destruct (cleanup_unpainted _ _ _ _ _ _ _ _ _ _ s2 Sh2)
    as [s3 [C [Sc [K [N [H L]]]]]].
  exists s3.
  split; [unfold run, try_finally; rewrite B, Ex, C; reflexivity |].
  split; [exact N |].
  assert (Lg : log s3
               = [mkEntry 0 119 (EvTime 0);
                  mkEntry 0 123 (EvSleep (1000 * activation_delay m));
                  mkEntry tr 0 (EvEnv (SetInserted false));
                  mkEntry (now s3) 128 EvAcquire;
                  mkEntry (now s3) 130 (EvKeepRunning true);
                  mkEntry (now s3) 130 (EvShouldKeepRunning false);
                  mkEntry (now s3) 174 (EvRelease Me)])
    by (rewrite L, N; reflexivity).
  split; [exact Lg |]. split; [rewrite Lg; reflexivity |].
  split; [exact H |]. split; [exact Sc | exact K].
Qed.

Lemma card_removed_during_delay_witness :
  exists s',
    run 1 remove_sdcard_manager
        (initial Free true (Screen 4) [(1500, SetInserted false)] no_faults)
    = Ret tt s' /\
    now s' = 3000 /\ paints (log s') = 0%nat /\ screen s' = Screen 4.
Proof.
  destruct (card_removed_during_delay 0 remove_sdcard_manager 1500 []
              (Screen 4))
    as [s' [R [N [_ [P [_ [Sc _]]]]]]];
    [ reflexivity | reflexivity | cbv; discriminate | exact I | ].
  exists s'. split; [exact R |]. split; [exact N |]. split; [exact P | exact Sc].
Defined.

(** ** A lock that is never handed over *)

(** No other thread will ever release the lock. *)
Definition no_release (sc : list (Z * env_action)) : Prop :=
  Forall (fun p => snd p <> OtherRelease) sc.

(** Another thread holds the lock and keeps it; the oracle is silent. *)
Record kept (s : State) : Prop := {
  kp_lock : lock s = Other;
  kp_faults : faults s = no_faults;
  kp_script : no_release (script s)
}.

Lemma apply_action_kept t a s :
  a <> OtherRelease -> lock s = Other -> lock (apply_action t a s) = Other.
Proof.
  intros N L. destruct a; cbn; rewrite ?L; try exact L; try reflexivity.
  congruence.
Qed.

Lemma deliver_kept t : forall pend s,
  no_release pend -> lock s = Other ->
  lock (deliver t pend s) = Other /\ no_release (script (deliver t pend s)).
Proof.
  induction pend as [| [ta a] rest IH]; intros s N L; cbn [deliver].
  - split; [exact L | constructor].
  - inversion N as [| ? ? Ha Hr]; subst. destruct (ta <=? t).
    + apply IH; [exact Hr | apply apply_action_kept; assumption].
    + split; [exact L | exact N].
Qed.

Lemma advance_kept t s : kept s -> kept (advance t s).
Proof.
  intros [L F N]. destruct (deliver_kept t (script s) s N L) as [L' N'].
  constructor; unfold advance; cbn [lock faults script set_now].
  - exact L'.
  - rewrite (env_faults _ _ (deliver_env t (script s) s)). exact F.
  - exact N'.
Qed.

Lemma acquire_wait_kept : forall pend s,
  no_release pend -> lock s = Other -> acquire_wait pend s = None.
Proof.
  induction pend as [| [ta a] rest IH]; intros s N L.
  - cbn. rewrite L. reflexivity.
  - cbn [acquire_wait]. rewrite L. inversion N as [| ? ? Ha Hr]; subst.
    apply IH; [exact Hr |]. apply apply_action_kept; [exact Ha | exact L].
Qed.

(** The acquire never returns. *)
Lemma lock_acquire_kept line s :
  kept s -> lock_acquire line s = Blocked (set_script [] (set_calls (S (calls s)) s)).
Proof.
  intros [L F N]. unfold lock_acquire, call. rewrite F.
  cbv beta iota zeta delta [no_faults].
  rewrite acquire_wait_kept; [reflexivity | exact N | exact L].
Qed.

(** The entries of the run before its first acquire returns. *)
Definition before_acquire (x : entry) : Prop := (at_line x < 128)%nat.

(** X10.  Another thread holds the lock when the toast thread starts and
    never releases it: the run reads the clock, sleeps the delay, and then
    waits in [acquire] for ever.  It does not return and does not raise;
    nothing is captured, painted or shown, the lock is left with its
    holder, and the [finally] block is not reached. *)
Theorem blocked_while_lock_is_kept :
  forall fuel m ins scr sc,
    no_release sc ->
    exists s',
      run fuel m (initial Other ins scr sc no_faults) = Blocked s' /\
      lock s' = Other /\
      has_rendered s' = Some false /\
      paints (log s') = 0%nat /\
      Forall before_acquire (log s').
Proof.
  intros fuel m ins scr sc N.
  set (s0 := initial Other ins scr sc no_faults).
  set (s0b := set_previous_screen_state None
                (set_has_rendered (Some false)
                   (set_start (Some 0)
                      (emit 119 (EvTime 0) (set_calls 1 s0))))).
  assert (E0 : run_body fuel m s0
               = ((if activation_delay m >? 0
                   then time_sleep 123 (1000 * activation_delay m) else ret tt) ;;;
                  lock_acquire 128 ;;; monitor fuel m) s0b) by reflexivity.
  assert (K0 : kept s0b) by (constructor; [reflexivity | reflexivity | exact N]).
  assert (S1 : exists s1 l,
             (if activation_delay m >? 0
              then time_sleep 123 (1000 * activation_delay m) else ret tt) s0b
             = Ret tt s1 /\
             kept s1 /\ has_rendered s1 = Some false /\
             log s1 = mkEntry 0 119 (EvTime 0) :: l /\
             Forall before_acquire l /\ Forall quiet_entry l).
  { destruct (activation_delay m >? 0).
    - unfold time_sleep, call. rewrite (kp_faults _ K0).
      cbv beta iota zeta delta [no_faults].
      match goal with
      | |- exists s1 l, Ret tt (advance ?t ?sa) = _ /\ _ =>
          destruct (advance_env t sa) as [[l [Lg Fa]] _ Hr _ _ _ _ _];
          exists (advance t sa),
                 ([mkEntry 0 123 (EvSleep (1000 * activation_delay m))] ++ l);
          split; [reflexivity |];
          split; [apply advance_kept; constructor;
                  [reflexivity | reflexivity | exact N] |];
          split; [rewrite Hr; reflexivity |];
          split; [rewrite Lg; reflexivity |];
          split; apply Forall_app; split;
            [ repeat constructor; unfold before_acquire; cbn; lia
            | eapply Forall_impl; [| exact Fa]; intros x [Z0 _];
              unfold before_acquire; rewrite Z0; lia
            | repeat constructor
            | eapply Forall_impl; [| exact Fa]; apply env_entry_quiet ]
      end.
    - exists s0b, []. split; [reflexivity |]. split; [exact K0 |].
      split; [reflexivity |]. split; [reflexivity |]. split; constructor. }
  destruct S1 as [s1 [l [Sl [K1 [H1 [L1 [B1 Q1]]]]]]].
  exists (set_script [] (set_calls (S (calls s1)) s1)).
  split.
  { unfold run, try_finally. rewrite E0.
    rewrite (bind_ret_eq _ _ _ _ _ Sl).
    unfold bind at 1. rewrite (lock_acquire_kept 128 s1 K1). reflexivity. }
  split; [exact (kp_lock _ K1) |]. split; [exact H1 |].
  cbn [log set_script set_calls]. rewrite L1.
  split.
  - change (mkEntry 0 119 (EvTime 0) :: l)
      with ([mkEntry 0 119 (EvTime 0)] ++ l).
    rewrite paints_app, (paints_quiet l Q1). reflexivity.
  - constructor; [unfold before_acquire; cbn; lia | exact B1].
Qed.

Lemma blocked_while_lock_is_kept_witness :
  exists s',
    run 5 (state_change_manager 1 3)
        (initial Other true (Screen 2) [(500, RequestStop)] no_faults)
    = Blocked s' /\ lock s' = Other /\ paints (log s') = 0%nat.
Proof.
  destruct (blocked_while_lock_is_kept 5 (state_change_manager 1 3) true
              (Screen 2) [(500, RequestStop)])
    as [s' [R [K [_ [P _]]]]];
    [ constructor; [discriminate | constructor] | ].
  exists s'. split; [exact R |]. split; [exact K | exact P].
Defined.

(** ** A yield during which the other thread draws *)

(** The wait for another thread to take the lock, whatever that thread
    does afterwards: the poll that follows its acquire finds the lock
    taken. *)
Lemma wait_locked_seen t1 rest kr tg i ins scr st hr pv :
  forall n fuel t lg s,
    shape t Free kr tg i ins scr ((t1, OtherAcquire) :: rest) lg st hr pv s ->
    t + 100 * Z.of_nat n < t1 <= t + 100 * (Z.of_nat n + 1) ->
    later (t + 100 * (Z.of_nat n + 1)) rest ->
    (S n < fuel)%nat ->
    exists s',
      wait_locked fuel s = Ret tt s' /\
      shape (t + 100 * (Z.of_nat n + 1)) Other kr tg i ins scr rest
            (lg ++ polls t (S n)
                ++ [mkEntry t1 0 (EvEnv OtherAcquire);
                    mkEntry (t + 100 * (Z.of_nat n + 1)) 145 (EvLocked true)])
            st hr pv s'.
Proof.
  induction n as [| n IH]; intros fuel t lg s Sh H1 Hl Hf.
  - destruct fuel as [| [| f]]; try lia.
    open_state s Sh. cbn [wait_locked].
    assert (L1 : (t1 <=? t + 100) = true) by (apply Z.leb_le; lia).
    assert (L2 : deliver (t + 100) rest = set_script rest).
    { destruct rest as [| [tb b] r]; [reflexivity |]. cbn [later] in Hl.
      cbn [deliver]. replace (tb <=? t + 100) with false
        by (symmetry; apply Z.leb_gt; lia). reflexivity. }
    eexists. split.
    + step_with ltac:(exec_open; reflexivity).
      step_with ltac:(exec_open; unfold advance; cbn [script deliver];
                      rewrite L1, L2; cbn [apply_action lock]; exec_open;
                      reflexivity).
      step_with ltac:(exec_open; reflexivity).
      reflexivity.
    + replace (t + 100 * (Z.of_nat 0 + 1)) with (t + 100) by lia.
      constructor; try reflexivity.
      cbn [log polls]. rewrite <- !app_assoc. reflexivity.
  - destruct fuel as [| f]; try lia.
    open_state s Sh. cbn [wait_locked].
    assert (L1 : (t1 <=? t + 100) = false) by (apply Z.leb_gt; lia).
    match goal with
    | |- context [mkState ?a ?b ?c ?d ?e ?g ?h ?sc ?ca ?fa ?lo ?sa ?ha ?pa] =>
        destruct (IH f (t + 100)
                     (lo ++ [mkEntry t 145 (EvLocked false);
                             mkEntry t 147 (EvSleep 100)])
                     (mkState (t + 100) b c d e g h sc (S (S ca)) fa
                        (lo ++ [mkEntry t 145 (EvLocked false);
                                mkEntry t 147 (EvSleep 100)]) sa ha pa))
          as [s' [W Sh']];
        [ constructor; reflexivity | lia
        | replace (t + 100 + 100 * (Z.of_nat n + 1))
            with (t + 100 * (Z.of_nat (S n) + 1)) by lia; exact Hl
        | lia |]
    end.
    exists s'. split.
    + step_with ltac:(exec_open; reflexivity).
      step_with ltac:(exec_open; unfold advance; cbn [script deliver];
                      rewrite L1; cbn [set_script set_now now lock keep_running
                        toggle_flag input inserted screen script calls faults
                        log start has_rendered previous_screen_state];
                      rewrite <- app_assoc; reflexivity).
      exact W.
    + replace (t + 100 * (Z.of_nat (S n) + 1))
        with (t + 100 + 100 * (Z.of_nat n + 1)) by lia.
      destruct Sh'. constructor; auto.
      rewrite sh_log0. cbn [polls]. rewrite <- !app_assoc. reflexivity.
Qed.

Lemma polls_quiet : forall k u, Forall quiet_entry (polls u k).
Proof.
  induction k as [| k IH]; intros u; cbn [polls]; repeat constructor.
  apply IH.
Qed.

(** What the handshake logs when the other thread draws [g] at [td] while
    it holds the lock. *)
Definition handshake_drawn (t : Z) (n : nat) (t1 td t2 : Z) (g : frame)
  : list entry :=
  [mkEntry t 141 EvClearToggle; mkEntry t 142 (EvRelease Me)]
  ++ polls t (S n)
  ++ [mkEntry t1 0 (EvEnv OtherAcquire);
      mkEntry (t + 100 * (Z.of_nat n + 1)) 145 (EvLocked true);
      mkEntry td 0 (EvEnv (OtherDraw g));
      mkEntry t2 0 (EvEnv OtherRelease);
      mkEntry t2 151 EvAcquire].

(** The acquire that waits while the other thread draws and then
    releases. *)
Lemma acquire_wait_drawn T td t2 g rest kr tg i ins scr sc c fl lg st hr pv :
  T < td <= t2 ->
  acquire_wait ((td, OtherDraw g) :: (t2, OtherRelease) :: rest)
    (mkState T Other kr tg i ins scr sc c fl lg st hr pv)
  = Some (mkState t2 Me kr tg i ins g rest c fl
            ((lg ++ [mkEntry td 0 (EvEnv (OtherDraw g))])
               ++ [mkEntry t2 0 (EvEnv OtherRelease)]) st hr pv).
Proof.
  intros H.
  cbn [acquire_wait lock set_now apply_action emit_at set_screen set_log
       set_lock now keep_running toggle_flag input inserted screen script
       calls faults log start has_rendered previous_screen_state].
  rewrite acquire_wait_free by reflexivity.
  replace (Z.max T td) with td by lia.
  replace (Z.max td t2) with t2 by lia.
  reflexivity.
Qed.

Lemma yield_lock_drawn t1 td t2 g rest kr i ins scr st hr pv n f t lg s :
  shape t Me kr true i ins scr
        ((t1, OtherAcquire) :: (td, OtherDraw g) :: (t2, OtherRelease) :: rest)
        lg st hr pv s ->
  t + 100 * Z.of_nat n < t1 <= t + 100 * (Z.of_nat n + 1) ->
  t + 100 * (Z.of_nat n + 1) < td <= t2 ->
  (S n < f)%nat ->
  returns (yield_lock f s)
    (fun _ s' =>
       shape t2 Me kr false i ins g rest
             (lg ++ handshake_drawn t n t1 td t2 g) st hr pv s').
Proof.
  intros Sh H1 H2 Hf. open_state s Sh. unfold yield_lock.
  ret_step. ret_step.
  match goal with
  | |- returns (bind (wait_locked f) _ ?S1) _ =>
      edestruct (wait_locked_seen t1 ((td, OtherDraw g) :: (t2, OtherRelease) :: rest)
                   kr false i ins scr st hr pv n f t (log S1) S1) as [s2 [W Sh2]];
      [constructor; reflexivity | exact H1 | cbn [later]; lia | exact Hf |]
  end.
  eapply returns_bind; [exact W |]. clear W.
  open_state s2 Sh2.
  unfold lock_acquire, call.
  cbv beta iota zeta delta
    [no_faults set_calls now lock keep_running toggle_flag input inserted
     screen script calls faults log start has_rendered previous_screen_state].
  rewrite acquire_wait_drawn by lia.
  unfold returns.
  exec_open.
  constructor; try reflexivity.
  unfold handshake_drawn. cbn [log polls]. rewrite <- ?app_assoc. cbn [app].
  reflexivity.
Qed.

(** X11.  The lock is yielded while the toast is on the screen, the other
    thread draws a frame [g] over it and gives the lock back when the
    duration of the toast is over.  The pass that made the handshake
    leaves the loop on the duration test; the toast is not painted again,
    the screen still shows [g]; the cleanup then puts back the frame that
    was saved before the toast was painted, over what the other thread
    drew, and releases the lock. *)
Theorem yield_ends_with_saved_frame :
  forall f m n t t1 td t2 rest ins scr g lg st fr s,
    shape t Me true true false ins scr
          ((t1, OtherAcquire) :: (td, OtherDraw g) :: (t2, OtherRelease) :: rest)
          lg (Some st) (Some true) (Some fr) s ->
    (class_of m = ClsRemoveSDCard -> ins = true) ->
    t + 100 * Z.of_nat n < t1 <= t + 100 * (Z.of_nat n + 1) ->
    t + 100 * (Z.of_nat n + 1) < td <= t2 ->
    (t2 - st >? 1000 * (activation_delay m + duration m)) = true ->
    (S n < f)%nat ->
    exists s1 s2,
      monitor (S f) m s = Ret tt s1 /\
      now s1 = t2 /\ screen s1 = g /\ lock s1 = Me /\
      log s1 = lg ++ checks_before_yield t ++ handshake_drawn t n t1 td t2 g
                  ++ [mkEntry t2 160 (EvTime t2)] /\
      paints (log s1) = paints lg /\
      cleanup s1 = Ret tt s2 /\
      screen s2 = fr /\ lock s2 = Free /\
      log s2 = log s1 ++ restore_entries t2 fr.
Proof.
  intros f m n t t1 td t2 rest ins scr g lg st fr s Sh Hins H1 H2 E Hf.
  assert (R : returns (iteration f m s)
                (fun go s1 =>
                   go = false /\
                   shape t2 Me true false false ins g rest
                         (lg ++ checks_before_yield t
                             ++ handshake_drawn t n t1 td t2 g
                             ++ [mkEntry t2 160 (EvTime t2)])
                         (Some st) (Some true) (Some fr) s1)).
  { open_state s Sh. unfold iteration, should_keep_running.
    destruct (class_of m) eqn:Cl;
      try (rewrite (Hins eq_refl) in *);
      do 5 ret_step;
      (match goal with
       | |- returns (bind (yield_lock f) _ ?S5) _ =>
           pose proof (yield_lock_drawn t1 td t2 g rest true false (inserted S5)
                         scr (Some st) (Some true) (Some fr) n f t (log S5) S5) as Y;
           apply returns_ex in Y;
           [| constructor; reflexivity | exact H1 | exact H2 | exact Hf]
       end;
       destruct Y as [[] [s6 [Y Sh6]]];
       eapply returns_bind; [exact Y |]; clear Y;
       open_state s6 Sh6;
       do 4 ret_step; rewrite E; ret_step;
       unfold returns, ret; split; [reflexivity |];
       constructor; try reflexivity;
       cbn [log]; unfold checks_before_yield;
       rewrite <- ?app_assoc; cbn [app]; reflexivity). }
  apply returns_ex in R. destruct R as [go [s1 [It [G Sh1]]]]. subst go.
  destruct (cleanup_restores_at _ _ _ _ _ _ _ _ _ _ s1 Sh1)
    as [s2 [C [Sc [K [_ [_ L]]]]]].
  pose proof (sh_log _ _ _ _ _ _ _ _ _ _ _ _ _ Sh1) as Lg.
  exists s1, s2.
  split; [cbn [monitor]; rewrite (bind_ret_eq _ _ _ _ _ It); reflexivity |].
  split; [exact (sh_now _ _ _ _ _ _ _ _ _ _ _ _ _ Sh1) |].
  split; [exact (sh_screen _ _ _ _ _ _ _ _ _ _ _ _ _ Sh1) |].
  split; [exact (sh_lock _ _ _ _ _ _ _ _ _ _ _ _ _ Sh1) |].
  split; [exact Lg |].
  split.
  { rewrite Lg, paints_app.
    match goal with
    | |- (_ + paints ?q)%nat = _ => rewrite (paints_quiet q); [lia |]
    end.
    unfold checks_before_yield, handshake_drawn.
    repeat (apply Forall_app; split); try apply polls_quiet;
      repeat constructor. }
  split; [exact C |]. split; [exact Sc |]. split; [exact K |].
  rewrite L, Lg. reflexivity.
Qed.

(** A toast of one second painted at 0; the yield is requested at 50,
    another thread takes the lock at 250, draws at 400 and gives the lock
    back at 1500. *)
Definition yield_with_draw : State :=
  final (run_body 1 (state_change_manager 0 1)
           (initial Free true (Screen 0)
              [(50, RequestYield); (250, OtherAcquire);
               (400, OtherDraw (Screen 9)); (1500, OtherRelease)]
              no_faults)).

Lemma yield_ends_with_saved_frame_witness :
  exists s1 s2,
    monitor 4 (state_change_manager 0 1) yield_with_draw = Ret tt s1 /\
    screen s1 = Screen 9 /\
    cleanup s1 = Ret tt s2 /\ screen s2 = Screen 0 /\ lock s2 = Free.
Proof.
  destruct (yield_ends_with_saved_frame 3 (state_change_manager 0 1) 1 100 250
              400 1500 [] true (ToastOver (Screen 0)) (Screen 9)
              (log yield_with_draw) 0 (Screen 0) yield_with_draw)
    as [s1 [s2 [Mo [_ [Sc1 [_ [_ [_ [C [Sc2 [K _]]]]]]]]]]];
    [ constructor; reflexivity | discriminate
    | cbv; split; [reflexivity | discriminate]
    | cbv; split; [reflexivity | discriminate]
    | reflexivity | lia | ].
  exists s1, s2.
  split; [exact Mo |]. split; [exact Sc1 |]. split; [exact C |].
  split; [exact Sc2 | exact K].
Defined.

(** ** The constructor of the base class *)

Section BaseConstruction.

Variables (NOTIFICATION_COLOR : string).
Variables (ICON_TOAST_FONT_SIZE EDGE_PADDING BODY_FONT_SIZE BODY_LINE_SPACING : Z).
Variable SDCARD : string.

(** X12.  A call of the constructor of the base class, whatever its timing
    arguments and whatever the host was: it raises, but only at its end.
    [instantiate_toast] (line 100) raises after [BaseThread.__init__]
    (line 88) has created the thread state and after [override_ind] of the
    buttons was set (line 98).  The override is therefore left set, also
    when it was not set before, although no toast exists and no thread is
    started. *)
Theorem base_construction_leaves_override :
  forall (delay dur : option Z) (h : Host),
    exists h',
      new_BaseToastOverlayManagerThread NOTIFICATION_COLOR ICON_TOAST_FONT_SIZE
        EDGE_PADDING BODY_FONT_SIZE BODY_LINE_SPACING SDCARD delay dur h
      = (inl (ConfigError "Must be implemented by subclass"), h') /\
      override_ind h' = true /\
      threads_created h' = S (threads_created h) /\
      threads_started h' = threads_started h.
Proof.
  intros delay dur h.
  unfold new_BaseToastOverlayManagerThread, base_init, instantiate_toast.
  eexists. split; [reflexivity |]. repeat split.
Qed.

End BaseConstruction.
